(** * CLOUDAIV1RECOIL: the actuation core, embedded and verified

    Shallow embedding of the parts of [CLOUDAIV1RECOIL.py] that decide how the
    pointer is moved: [distribute_movement], [Config.load], [AppState],
    [MakcuController] and the body of [CloudRecoil.recoil_loop].

    Conventions of the embedding.
    - Python [int] is [Z]; [//] and [%] are [Z.div] and [Z.modulo], which
      like Python's round towards minus infinity and give the remainder the
      sign of the divisor.
    - A Python exception that leaves a function is a [Raise] result.
    - Dictionaries with string keys are [gmap string _].
    - A [str] read from the serial line is a list of Unicode code points;
      the Unicode tables that [str.lower] consults are an input.
    - What the operating system, the serial line and the random generator do
      is an input of the model (an oracle), never a choice of the model.
    - [time.sleep] and [print] leave no trace in the model. *)

From Stdlib Require Import ZArith String Ascii Lia DecimalString.
From Stdlib.Strings Require Import Byte.
From Stdlib Require DecimalZ DecimalPos.
From stdpp Require Import base numbers option list gmap strings.

Open Scope Z_scope.

(** ** Exceptions *)

Inductive exn :=
| KeyError (k : string)
| TypeError
| IndexError
| ValueError
| AttributeError
| OSError             (* also known as IOError *)
| SerialException
| JSONDecodeError
| UnicodeDecodeError.

Inductive result (A : Type) :=
| Ok (a : A)
| Raise (e : exn).
Arguments Ok {A} a.
Arguments Raise {A} e.

Global Instance result_ret : MRet result := λ A a, Ok a.
Global Instance result_bind : MBind result := λ A B k m,
  match m with
  | Ok a => k a
  | Raise e => Raise e
  end.

(** Left-to-right loop over a list in the exception monad: the body of a
    Python [for] statement applied to each element in turn. *)
Fixpoint for_each {A S} (body : S → A → result S) (xs : list A) (s : S)
  : result S :=
  match xs with
  | [] => Ok s
  | x :: xs' => s' ← body s x; for_each body xs' s'
  end.

(** ** MovementScheduler: [distribute_movement] *)

(** [moves[i] += 1]; an index outside the list raises [IndexError]. *)
Definition incr_at (moves : list Z) (i : nat) : result (list Z) :=
  match moves !! i with
  | Some v => Ok (<[i := v + 1]> moves)
  | None => Raise IndexError
  end.

(** [range(n)] for an integer [n]: empty when [n <= 0]. *)
Definition range (n : Z) : list nat := seq 0 (Z.to_nat n).

Definition distribute_movement (total_pixels steps : Z) : result (list Z) :=
  if steps <=? 0 then Ok []
  else
    let base_move := total_pixels `div` steps in
    let remainder := total_pixels `mod` steps in
    let moves := replicate (Z.to_nat steps) base_move in
    for_each incr_at (range remainder) moves.

(** Python's [sum] on a list of integers. *)
Definition sum (l : list Z) : Z := foldr Z.add 0 l.

(** ** Text and bytes

    A Python [str] is a list of Unicode code points, [bytes] a list of
    bytes.  [isspace] is [str.isspace]; [lower] is [str.lower], whose
    mapping is written out for the code points below 256 and taken from
    the Unicode tables beyond. *)

Definition text : Type := list N.

Definition code (c : ascii) : N := N_of_ascii c.

(** A [str] literal of the source. *)
Definition text_of (s : string) : text := code <$> list_ascii_of_string s.

Definition isspace (n : N) : bool :=
  (((9 <=? n) && (n <=? 13)) || ((28 <=? n) && (n <=? 32))
   || (n =? 133) || (n =? 160) || (n =? 5760)
   || ((8192 <=? n) && (n <=? 8202)) || (n =? 8232) || (n =? 8233)
   || (n =? 8239) || (n =? 8287) || (n =? 12288))%N.

Fixpoint lstrip (s : text) : text :=
  match s with
  | [] => []
  | c :: s' => if isspace c then lstrip s' else s
  end.

Definition is_empty (s : text) : bool :=
  match s with [] => true | _ :: _ => false end.

Fixpoint rstrip (s : text) : text :=
  match s with
  | [] => []
  | c :: s' =>
      let r := rstrip s' in
      if isspace c && is_empty r then [] else c :: r
  end.

Definition strip (s : text) : text := rstrip (lstrip s).

(** What [str.lower] takes from the Unicode character database: the
    full lower-case mapping of a code point, and the two properties that
    decide the form of a small sigma. *)
Module Unicode.

Record db := {
  to_lower_full : N → text;
  is_cased : N → bool;
  is_case_ignorable : N → bool;
}.

End Unicode.

Definition lower_latin1 (n : N) : N :=
  if (((65 <=? n) && (n <=? 90))
      || ((192 <=? n) && (n <=? 222) && negb (n =? 215)))%N
  then (n + 32)%N else n.

Fixpoint skip_ignorable (u : Unicode.db) (s : text) : text :=
  match s with
  | [] => []
  | c :: s' => if Unicode.is_case_ignorable u c then skip_ignorable u s' else s
  end.

(** Whether a capital sigma stands at the end of a word: [before] is the
    text in front of it, nearest character first, [after] the text
    behind it. *)
Definition final_sigma (u : Unicode.db) (before after : text) : bool :=
  match skip_ignorable u before with
  | c :: _ =>
      Unicode.is_cased u c
      && match skip_ignorable u after with
         | c' :: _ => negb (Unicode.is_cased u c')
         | [] => true
         end
  | [] => false
  end.

(** The lower case of one character of a text. *)
Definition lower_at (u : Unicode.db) (before after : text) (c : N) : text :=
  if (c =? 931)%N then [if final_sigma u before after then 962 else 963]%N
  else if (c <? 256)%N then [lower_latin1 c]
  else Unicode.to_lower_full u c.

Fixpoint lower_from (u : Unicode.db) (before s : text) : text :=
  match s with
  | [] => []
  | c :: s' => lower_at u before s' c ++ lower_from u (c :: before) s'
  end.

Definition lower (u : Unicode.db) (s : text) : text := lower_from u [] s.

(** [sep.join(parts)] *)
Fixpoint join (sep : text) (parts : list text) : text :=
  match parts with
  | [] => []
  | [x] => x
  | x :: rest => x ++ sep ++ join sep rest
  end.

Fixpoint starts_with (needle hay : text) : bool :=
  match needle, hay with
  | [], _ => true
  | _ :: _, [] => false
  | a :: needle', b :: hay' => (a =? b)%N && starts_with needle' hay'
  end.

(** [needle in hay] on strings. *)
Fixpoint contains (needle hay : text) : bool :=
  starts_with needle hay
  || match hay with
     | [] => false
     | _ :: hay' => contains needle hay'
     end.

Definition CR : string := String (ascii_of_N 13) EmptyString.
Definition LF : string := String (ascii_of_N 10) EmptyString.

Definition bytes : Type := list byte.
Definition encode (s : string) : bytes := list_byte_of_string s.

(** [b"%d" % z] *)
Definition dec (z : Z) : string := NilZero.string_of_int (Z.to_int z).

(** Well-formed UTF-8 sequences of two, three and four bytes. *)
Definition continuation (b : N) : bool := ((128 <=? b) && (b <=? 191))%N.

Definition utf8_2 (b0 b1 : N) : bool :=
  ((194 <=? b0) && (b0 <=? 223))%N && continuation b1.

Definition utf8_3 (b0 b1 b2 : N) : bool :=
  ((b0 =? 224) && (160 <=? b1) && (b1 <=? 191)
   || ((225 <=? b0) && (b0 <=? 236) || (238 <=? b0) && (b0 <=? 239))
      && continuation b1
   || (b0 =? 237) && (128 <=? b1) && (b1 <=? 159))%N
  && continuation b2.

Definition utf8_4 (b0 b1 b2 b3 : N) : bool :=
  ((b0 =? 240) && (144 <=? b1) && (b1 <=? 191)
   || (241 <=? b0) && (b0 <=? 243) && continuation b1
   || (b0 =? 244) && (128 <=? b1) && (b1 <=? 143))%N
  && continuation b2 && continuation b3.

(** UTF-8 decoding that ignores errors, on byte values: a well-formed
    sequence gives its code point, and a byte that starts none is
    dropped. *)
Fixpoint decode_values (bs : list N) : text :=
  match bs with
  | [] => []
  | b0 :: r0 =>
      if (b0 <? 128)%N then b0 :: decode_values r0
      else
        match r0 with
        | [] => decode_values r0
        | b1 :: r1 =>
            if utf8_2 b0 b1
            then ((b0 - 192) * 64 + (b1 - 128))%N :: decode_values r1
            else
              match r1 with
              | [] => decode_values r0
              | b2 :: r2 =>
                  if utf8_3 b0 b1 b2
                  then ((b0 - 224) * 4096 + (b1 - 128) * 64 + (b2 - 128))%N
                       :: decode_values r2
                  else
                    match r2 with
                    | [] => decode_values r0
                    | b3 :: r3 =>
                        if utf8_4 b0 b1 b2 b3
                        then ((b0 - 240) * 262144 + (b1 - 128) * 4096
                              + (b2 - 128) * 64 + (b3 - 128))%N
                             :: decode_values r3
                        else decode_values r0
                    end
              end
        end
  end.

(** [data.decode(errors="ignore")] *)
Definition decode (data : bytes) : text := decode_values (Byte.to_N <$> data).

(** ** Values held in the configuration

    The scalar kinds that the defaults, the user interface and a flat
    JSON document put into the settings dictionary. *)

Inductive value :=
| VBool (b : bool)
| VInt (z : Z)
| VStr (s : string)
| VNone.

(** Truth value of an object, as tested by [if], [and], [or], [not]. *)
Definition truthy (v : value) : bool :=
  match v with
  | VBool b => b
  | VInt z => negb (z =? 0)
  | VStr s => negb (String.eqb s "")
  | VNone => false
  end.

(** The integer an arithmetic operator sees; [bool] is a subtype of
    [int], the other kinds raise [TypeError]. *)
Definition as_int (v : value) : result Z :=
  match v with
  | VBool b => Ok (Z.b2z b)
  | VInt z => Ok z
  | VStr _ | VNone => Raise TypeError
  end.

(** [d[k]] *)
Definition getitem (d : gmap string value) (k : string) : result value :=
  match d !! k with
  | Some v => Ok v
  | None => Raise (KeyError k)
  end.

(** [d.get(k, default)] *)
Definition get (d : gmap string value) (k : string) (default : value) : value :=
  match d !! k with
  | Some v => v
  | None => default
  end.

(** [max(1, v)]: the first argument is kept unless [v > 1]. *)
Definition max1 (v : value) : result Z :=
  n ← as_int v; Ok (if 1 <? n then n else 1).

(** ** Config *)

Module Config.

Definition DEFAULTS : gmap string value :=
  list_to_map
    [ ("recoil_compensation", VBool true);
      ("bloom_reduction", VBool false);
      ("require_ads", VBool true);
      ("show_crosshair", VBool false);
      ("recoil_strength", VInt 11);
      ("smoothing", VInt 3);
      ("bloom_intensity", VInt 2);
      ("crosshair_color", VStr "#BF40BF");
      ("crosshair_size", VInt 5);
      ("crosshair_thickness", VInt 2);
      ("use_makcu", VBool false) ]%string.

(** What [json.load] hands back: an object, or a document whose top
    level is not an object (array, string, number, [true], [null]). *)
Inductive json :=
| JObject (d : gmap string value)
| JOther.

(** The file at [CONFIG_PATH] as [load] meets it: whether
    [os.path.exists] finds it, and what [open] followed by [json.load]
    produces ([OSError] for an unreadable file, [JSONDecodeError] for
    text that is not JSON). *)
Record file := {
  exists_ : bool;
  parsed : result json;
}.

(** [{**base, **doc}]: unpacking something that is not a mapping raises
    [TypeError]; on equal keys the later operand wins. *)
Definition unpack_over (base : gmap string value) (doc : json)
  : result (gmap string value) :=
  match doc with
  | JObject d => Ok (d ∪ base)
  | JOther => Raise TypeError
  end.

Definition load (f : file) : result (gmap string value) :=
  let body : result (option (gmap string value)) :=
    if exists_ f then
      doc ← parsed f;
      merged ← unpack_over DEFAULTS doc;
      Ok (Some merged)
    else Ok None in
  match body with
  | Ok (Some settings) => Ok settings
  | Ok None => Ok DEFAULTS
  | Raise JSONDecodeError | Raise OSError => Ok DEFAULTS
  | Raise e => Raise e
  end.

(** Files named in the statements below. *)

(** A file holding the JSON object [d]. *)
Definition stored (d : gmap string value) : file :=
  {| exists_ := true; parsed := Ok (JObject d) |}.

(** No file at the path (what reading it would give is then irrelevant). *)
Definition missing (p : result json) : file :=
  {| exists_ := false; parsed := p |}.

(** A file whose text is not JSON. *)
Definition corrupt : file :=
  {| exists_ := true; parsed := Raise JSONDecodeError |}.

(** A file that cannot be opened or read. *)
Definition unreadable : file :=
  {| exists_ := true; parsed := Raise OSError |}.

(** A file whose bytes are not text in the encoding it is read with. *)
Definition undecodable : file :=
  {| exists_ := true; parsed := Raise UnicodeDecodeError |}.

(** A file holding JSON whose top level is not an object. *)
Definition not_an_object : file :=
  {| exists_ := true; parsed := Ok JOther |}.

(** The keys of the defaults. *)
Definition known (k : string) : Prop := is_Some (DEFAULTS !! k).

End Config.

(** ** AppState (the lock is not modelled: one thread at a time) *)

Module AppState.

Record t := {
  settings : gmap string value;
  fps : Z;
  running : bool;
}.

Definition init (initial_settings : gmap string value) : t :=
  {| settings := initial_settings; fps := 0; running := true |}.

Definition update (new_settings : gmap string value) (self : t) : t :=
  {| settings := new_settings ∪ settings self;
     fps := fps self; running := running self |}.

Definition get_full_config (self : t) : gmap string value := settings self.

Definition tick_fps (self : t) : t :=
  {| settings := settings self; fps := fps self + 1;
     running := running self |}.

End AppState.

(** ** The serial line

    A [Serial.t] is one opened [serial.Serial] object.  [written] lists
    the data the line accepted, oldest first; [calls] counts the calls of
    [write]; [write_ok k] tells whether the call number [k] succeeds and
    [incoming] the bytes that successive [readline] calls deliver while
    [in_waiting] is non-zero ([None]: the call raises).  The last two are
    the behaviour of the host and of the device, fixed when the port is
    opened.  Time-outs are in milliseconds. *)

Module Serial.

Record t := {
  port : string;
  is_open : bool;
  baudrate : Z;
  timeout : Z;
  write_timeout : Z;
  written : list bytes;
  calls : nat;
  write_ok : nat → bool;
  incoming : list (option bytes);
}.

(** What a port does for one opening. *)
Record line := {
  open_ok : bool;
  line_write_ok : nat → bool;
  line_incoming : list (option bytes);
}.

(** [serial.Serial(device, baud, timeout=.., write_timeout=..)] *)
Definition open (l : line) (device : string) (baud tmo wtmo : Z) : result t :=
  if open_ok l then
    Ok {| port := device; is_open := true; baudrate := baud;
          timeout := tmo; write_timeout := wtmo;
          written := []; calls := 0;
          write_ok := line_write_ok l; incoming := line_incoming l |}
  else Raise SerialException.

(** [write(data)]: raises on a closed port and when the line fails. *)
Definition write (data : bytes) (s : t) : result unit * t :=
  let ok := is_open s && write_ok s (calls s) in
  (if ok then Ok () else Raise SerialException,
   {| port := port s; is_open := is_open s; baudrate := baudrate s;
      timeout := timeout s; write_timeout := write_timeout s;
      written := if ok then written s ++ [data] else written s;
      calls := S (calls s);
      write_ok := write_ok s; incoming := incoming s |}).

Definition close (s : t) : t :=
  {| port := port s; is_open := false; baudrate := baudrate s;
     timeout := timeout s; write_timeout := write_timeout s;
     written := written s; calls := calls s;
     write_ok := write_ok s; incoming := incoming s |}.

Definition set_baudrate (b : Z) (s : t) : t :=
  {| port := port s; is_open := is_open s; baudrate := b;
     timeout := timeout s; write_timeout := write_timeout s;
     written := written s; calls := calls s;
     write_ok := write_ok s; incoming := incoming s |}.

Definition set_timeouts (tmo wtmo : Z) (s : t) : t :=
  {| port := port s; is_open := is_open s; baudrate := baudrate s;
     timeout := tmo; write_timeout := wtmo;
     written := written s; calls := calls s;
     write_ok := write_ok s; incoming := incoming s |}.

Definition set_incoming (pending : list (option bytes)) (s : t) : t :=
  {| port := port s; is_open := is_open s; baudrate := baudrate s;
     timeout := timeout s; write_timeout := write_timeout s;
     written := written s; calls := calls s;
     write_ok := write_ok s; incoming := pending |}.

End Serial.

(** The host as [connect] sees it: the devices that
    [list_ports.comports()] enumerates, in order, and what each port does
    when it is opened to try a given profile. *)
Record host := {
  comports : list string;
  line_of : string → string → Serial.line;
}.

(** ** MakcuController *)

Module MakcuController.

Record profile := {
  HANDSHAKE_COMMAND : bytes;
  HANDSHAKE_RESPONSE_KEYWORDS : list string;
  BAUDRATE_HIGH : Z;
  INIT_SEQUENCE : bytes;
  INIT_COMMAND : bytes;
}.

(** The catalogue, in the order in which the dictionary is iterated. *)
Definition DEVICE_PROFILES : list (string * profile) :=
  [ ("makcu"%string,
     {| HANDSHAKE_COMMAND := encode ("km.version()" ++ CR ++ LF);
        HANDSHAKE_RESPONSE_KEYWORDS := ["km.makcu"; "km"]%string;
        BAUDRATE_HIGH := 4000000;
        INIT_SEQUENCE := [xde; xad; x05; x00; xa5; x00; x09; x3d; x00];
        INIT_COMMAND := encode ("km.buttons(1)" ++ CR ++ LF) |});
    ("otherbox"%string,
     {| HANDSHAKE_COMMAND := encode ("box.version()" ++ CR ++ LF);
        HANDSHAKE_RESPONSE_KEYWORDS := ["otherbox"%string];
        BAUDRATE_HIGH := 115200;
        INIT_SEQUENCE := [];
        INIT_COMMAND := [] |}) ].

Definition BAUDRATE_DEFAULT : Z := 115200.

(** [MOVE_CMD_TEMPLATE % (x, y)] *)
Definition MOVE_CMD (x y : Z) : bytes :=
  encode ("km.move(" ++ dec x ++ "," ++ dec y ++ ")" ++ CR).

Record t := {
  serial : option Serial.t;
  connected : bool;
  port_name : option string;
}.

Definition init : t :=
  {| serial := None; connected := false; port_name := None |}.

(** Methods run in a state and exception monad over the object: what a
    method did to [self] before it raised stays done. *)
Definition M (A : Type) : Type := t → result A * t.

#[global] Instance M_ret : MRet M := λ A a self, (Ok a, self).
#[global] Instance M_bind : MBind M := λ A B k m self,
  match m self with
  | (Ok a, self') => k a self'
  | (Raise e, self') => (Raise e, self')
  end.

Definition raise {A} (e : exn) : M A := λ self, (Raise e, self).

Definition lift {A} (r : result A) : M A := λ self, (r, self).

(** [try: body except (OSError, serial.SerialException): handler] *)
Definition try_except {A} (body : M A) (handler : M A) : M A := λ self,
  match body self with
  | (Raise OSError, self') | (Raise SerialException, self') => handler self'
  | other => other
  end.

Definition set_serial (s : Serial.t) : M unit := λ self,
  (Ok (), {| serial := Some s; connected := connected self;
             port_name := port_name self |}).

Definition set_connected (b : bool) : M unit := λ self,
  (Ok (), {| serial := serial self; connected := b;
             port_name := port_name self |}).

Definition set_port_name (n : option string) : M unit := λ self,
  (Ok (), {| serial := serial self; connected := connected self;
             port_name := n |}).

(** A call [self.serial.f(..)]: [AttributeError] when [self.serial] is
    [None]; the object is updated in place. *)
Definition on_serial {A} (f : Serial.t → result A * Serial.t) : M A := λ self,
  match serial self with
  | None => (Raise AttributeError, self)
  | Some s =>
      let '(r, s') := f s in
      (r, {| serial := Some s'; connected := connected self;
             port_name := port_name self |})
  end.

Definition on_serial_ (f : Serial.t → Serial.t) : M unit :=
  on_serial (λ s, (Ok (), f s)).

(** [if self.serial and self.serial.is_open: self.serial.close()] *)
Definition close_if_open : M unit := λ self,
  match serial self with
  | Some s => if Serial.is_open s then on_serial_ Serial.close self
              else (Ok (), self)
  | None => (Ok (), self)
  end.

Definition close : M unit :=
  close_if_open;;
  set_connected false;;
  set_port_name None.

(** The loop of [_read_response]: lines are read while input is waiting,
    decoded and stripped, and kept when something is left of them; an
    exception ends the reading and keeps the lines read so far. *)
Fixpoint drain (pending : list (option bytes))
  : list text * list (option bytes) :=
  match pending with
  | [] => ([], [])
  | None :: rest => ([], rest)
  | Some raw :: rest =>
      let line := strip (decode raw) in
      let '(lines, unread) := drain rest in
      (if is_empty line then lines else line :: lines, unread)
  end.

Definition _read_response (u : Unicode.db) : M text := λ self,
  match serial self with
  | None => (Ok (lower u (join (text_of " ") [])), self)
  | Some s =>
      let '(lines, unread) := drain (Serial.incoming s) in
      (Ok (lower u (join (text_of " ") lines)),
       {| serial := Some (Serial.set_incoming unread s);
          connected := connected self; port_name := port_name self |})
  end.

Definition nonempty (b : bytes) : bool :=
  match b with [] => false | _ :: _ => true end.

Definition _finalize_connection (device : string) (p : profile) : M unit :=
  set_port_name (Some device);;
  (if nonempty (INIT_SEQUENCE p)
   then on_serial (Serial.write (INIT_SEQUENCE p)) else mret ());;
  let baud_high := BAUDRATE_HIGH p in
  (if negb (baud_high =? BAUDRATE_DEFAULT)
   then on_serial_ (Serial.set_baudrate baud_high) else mret ());;
  (if nonempty (INIT_COMMAND p)
   then on_serial (Serial.write (INIT_COMMAND p)) else mret ());;
  on_serial_ (Serial.set_timeouts 1 1);;
  set_connected true.

(** [any(keyword in response for keyword in keywords)] *)
Definition any_keyword (keywords : list string) (response : text) : bool :=
  existsb (λ keyword, contains (text_of keyword) response) keywords.

(** The body of the [try] for one port and one profile; the result is
    whether [connect] returns [True] from here. *)
Definition attempt (u : Unicode.db) (h : host) (device name : string)
    (p : profile) : M bool :=
  s ← lift (Serial.open (line_of h device name) device BAUDRATE_DEFAULT 500 100);
  set_serial s;;
  on_serial (Serial.write (HANDSHAKE_COMMAND p));;
  response ← _read_response u;
  if any_keyword (HANDSHAKE_RESPONSE_KEYWORDS p) response then
    _finalize_connection device p;;
    mret true
  else
    on_serial_ Serial.close;;
    mret false.

Definition try_candidate (u : Unicode.db) (h : host)
    (c : string * (string * profile)) : M bool :=
  let '(device, (name, p)) := c in
  try_except (attempt u h device name p) (close_if_open;; mret false).

(** The two nested [for] loops, flattened: every port with every
    profile, ports outermost. *)
Definition candidates (h : host) : list (string * (string * profile)) :=
  flat_map (λ device, map (λ np, (device, np)) DEVICE_PROFILES) (comports h).

Fixpoint search (u : Unicode.db) (h : host)
    (cs : list (string * (string * profile))) : M bool :=
  match cs with
  | [] => mret false
  | c :: rest =>
      found ← try_candidate u h c;
      match found with true => mret true | false => search u h rest end
  end.

Definition connect (u : Unicode.db) (HAVE_PYSERIAL : bool) (h : host)
  : M bool :=
  if negb HAVE_PYSERIAL then mret false
  else
    close;;
    search u h (candidates h).

Definition move (x y : Z) : M bool := λ self,
  if negb (connected self) || negb (bool_decide (is_Some (serial self)))
  then (Ok false, self)
  else if (x =? 0) && (y =? 0) then (Ok true, self)
  else
    let command := MOVE_CMD x y in
    try_except
      (on_serial (Serial.write command);; mret true)
      (set_connected false;; mret false)
      self.

(** Candidates, as the proofs below classify them. *)

(** The text [_read_response] returns on a freshly opened line. *)
Definition response (u : Unicode.db) (l : Serial.line) : text :=
  lower u (join (text_of " ") (drain (Serial.line_incoming l)).1).

(** The candidate opens, takes the handshake command and answers with
    text that contains one of the profile's keywords. *)
Definition answers (u : Unicode.db) (h : host)
    (c : string * (string * profile)) : bool :=
  let l := line_of h c.1 c.2.1 in
  Serial.open_ok l && Serial.line_write_ok l 0
  && any_keyword (HANDSHAKE_RESPONSE_KEYWORDS c.2.2) (response u l).

(** The writes of [_finalize_connection] succeed: they are the calls of
    [write] number 1 and following on the opened port. *)
Definition finalizes (h : host) (c : string * (string * profile)) : bool :=
  let l := line_of h c.1 c.2.1 in
  let p := c.2.2 in
  (if nonempty (INIT_SEQUENCE p) then Serial.line_write_ok l 1 else true)
  && (if nonempty (INIT_COMMAND p)
      then Serial.line_write_ok l (if nonempty (INIT_SEQUENCE p) then 2 else 1)
      else true).

Definition accepted (u : Unicode.db) (h : host)
    (c : string * (string * profile)) : bool :=
  answers u h c && finalizes h c.

(** Unicode tables for the sample runs: only what the samples, which
    stay below code point 256, can reach. *)
Definition plain_tables : Unicode.db :=
  {| Unicode.to_lower_full := λ c, [c];
     Unicode.is_cased := λ _, false;
     Unicode.is_case_ignorable := λ _, false |}.

(** A host with one port, whose device takes every write and answers
    every handshake with a greeting that no profile knows. *)
Definition silent_host : host :=
  {| comports := ["COM3"%string];
     line_of := λ _ _,
       {| Serial.open_ok := true;
          Serial.line_write_ok := λ _, true;
          Serial.line_incoming := [Some (encode ("Hello" ++ CR ++ LF))] |} |}.

End MakcuController.

(** ** CloudRecoil: the actuation loop *)

Module CloudRecoil.

(** What the loop does to the outside world, oldest first. *)
Inductive event :=
| MouseEvent (dx dy : Z)   (* win32api.mouse_event(MOUSEEVENTF_MOVE, dx, dy, 0, 0) *)
| MakcuMove (dx dy : Z)    (* self.mouse_controller.move(dx, dy) is called *)
| MakcuActivity.           (* self.makcu_activity_signal.emit() *)

Record t := {
  app_state : AppState.t;
  mouse_controller : option MakcuController.t;
  log : list event;
}.

Inductive vk := VK_LBUTTON | VK_RBUTTON.

(** What one tick reads from outside: the raw key states and the random
    generator's choice for given bounds. *)
Record env := {
  GetAsyncKeyState : vk → Z;
  choice : Z → Z → Z;
}.

(** [random.randint(a, b)]: an empty range raises [ValueError]. *)
Definition randint (e : env) (a b : Z) : result Z :=
  if b <? a then Raise ValueError else Ok (choice e a b).

(** The state of the widgets that [update_settings] reads. *)
Record controls := {
  recoil_compensation : bool;
  bloom_reduction : bool;
  require_ads : bool;
  show_crosshair : bool;
  use_makcu : bool;
  recoil_strength : Z;
  smoothing : Z;
  bloom_intensity : Z;
  crosshair_size : Z;
  crosshair_thickness : Z;
  crosshair_color : string;
}.

(** The dictionary that [update_settings] builds. *)
Definition settings_of (c : controls) : gmap string value :=
  list_to_map
    [ ("recoil_compensation", VBool (recoil_compensation c));
      ("bloom_reduction", VBool (bloom_reduction c));
      ("require_ads", VBool (require_ads c));
      ("show_crosshair", VBool (show_crosshair c));
      ("use_makcu", VBool (use_makcu c));
      ("recoil_strength", VInt (recoil_strength c));
      ("smoothing", VInt (smoothing c));
      ("bloom_intensity", VInt (bloom_intensity c));
      ("crosshair_size", VInt (crosshair_size c));
      ("crosshair_thickness", VInt (crosshair_thickness c));
      ("crosshair_color", VStr (crosshair_color c)) ]%string.

Definition update_settings (c : controls) (self : t) : t :=
  {| app_state := AppState.update (settings_of c) (app_state self);
     mouse_controller := mouse_controller self;
     log := log self |}.

Definition emit (evs : list event) (self : t) : t :=
  {| app_state := app_state self;
     mouse_controller := mouse_controller self;
     log := log self ++ evs |}.

(** [lmb_pressed and config['recoil_compensation'] and
     (not config['require_ads'] or ads_pressed)], as tested by [if];
    [and] and [or] evaluate their right operand only when needed. *)
Definition is_recoil_active (lmb_pressed ads_pressed : bool)
    (config : gmap string value) : result bool :=
  if lmb_pressed then
    rc ← getitem config "recoil_compensation";
    if truthy rc then
      ra ← getitem config "require_ads";
      Ok (negb (truthy ra) || ads_pressed)
    else Ok false
  else Ok false.

(** [distribute_movement] called on a settings value: the early return
    comes before the first arithmetic on [total_pixels]. *)
Definition distribute_value (total_pixels : value) (steps : Z)
  : result (list Z) :=
  if steps <=? 0 then Ok []
  else total ← as_int total_pixels; distribute_movement total steps.

(** [l[i]] for [i >= 0] *)
Definition index (l : list Z) (i : nat) : result Z :=
  match l !! i with
  | Some v => Ok v
  | None => Raise IndexError
  end.

(** The body of [for i in range(smoothing)]. *)
Definition substep (use_hw : bool) (x_moves y_moves : list Z)
    (self : t) (i : nat) : result t :=
  dx ← index x_moves i;
  dy ← index y_moves i;
  if use_hw then
    match mouse_controller self with
    | None => Raise AttributeError
    | Some mc =>
        match MakcuController.move dx dy mc with
        | (Ok sent, mc') =>
            Ok {| app_state := app_state self;
                  mouse_controller := Some mc';
                  log := log self ++ MakcuMove dx dy
                           :: (if sent then [MakcuActivity] else []) |}
        | (Raise e, _) => Raise e
        end
    end
  else Ok (emit [MouseEvent dx dy] self).

(** [config.get('use_makcu', False) and self.mouse_controller and
     self.mouse_controller.connected], as tested by [if]. *)
Definition hardware_selected (config : gmap string value) (self : t) : bool :=
  truthy (get config "use_makcu" (VBool false))
  && match mouse_controller self with
     | Some mc => MakcuController.connected mc
     | None => false
     end.

(** The body of [if is_recoil_active:]. *)
Definition compensate (e : env) (config : gmap string value) (self : t)
  : result t :=
  sm ← getitem config "smoothing";
  smoothing ← max1 sm;
  dy_total ← getitem config "recoil_strength";
  br ← getitem config "bloom_reduction";
  dx_total ←
    (if truthy br then
       lo ← getitem config "bloom_intensity";
       lo ← as_int lo;
       hi ← getitem config "bloom_intensity";
       hi ← as_int hi;
       r ← randint e (- lo) hi;
       Ok (VInt r)
     else Ok (VInt 0));
  y_moves ← distribute_value dy_total smoothing;
  x_moves ← distribute_value dx_total smoothing;
  let use_hw := hardware_selected config self in
  for_each (substep use_hw x_moves y_moves) (range smoothing) self.

(** One pass through the body of [while self.app_state.running:]. *)
Definition recoil_tick (e : env) (self : t) : result t :=
  let self :=
    {| app_state := AppState.tick_fps (app_state self);
       mouse_controller := mouse_controller self;
       log := log self |} in
  let config := AppState.get_full_config (app_state self) in
  let lmb_pressed := GetAsyncKeyState e VK_LBUTTON <? 0 in
  let ads_pressed := GetAsyncKeyState e VK_RBUTTON <? 0 in
  active ← is_recoil_active lmb_pressed ads_pressed config;
  match active with
  | true => compensate e config self
  | false => Ok self
  end.

(** The loop, for as many ticks as the environment is given. *)
Fixpoint recoil_loop (es : list env) (self : t) : result t :=
  match es with
  | [] => Ok self
  | e :: es' =>
      if AppState.running (app_state self) then
        self' ← recoil_tick e self;
        recoil_loop es' self'
      else Ok self
  end.

(** The backend calls in a log: the [(dx, dy)] of every
    [mouse_event] and of every [mouse_controller.move]. *)
Definition sends (evs : list event) : list (Z * Z) :=
  omap (λ ev, match ev with
              | MouseEvent dx dy | MakcuMove dx dy => Some (dx, dy)
              | MakcuActivity => None
              end) evs.

(** The activation predicate as the specification words it:
    [recoil_compensation AND primary_pressed AND
     (NOT require_ads OR secondary_pressed)]. *)
Definition activation_predicate (c : controls)
    (primary_pressed secondary_pressed : bool) : bool :=
  recoil_compensation c && primary_pressed
  && (negb (require_ads c) || secondary_pressed).

(** A log entry that is a call of the synthetic-input backend. *)
Definition is_mouse_event (ev : event) : Prop :=
  ∃ dx dy, ev = MouseEvent dx dy.

(** The horizontal total of an active tick. *)
Definition dx_total_of (c : controls) (e : env) : Z :=
  if bloom_reduction c
  then choice e (- bloom_intensity c) (bloom_intensity c)
  else 0.

(** Sample inputs for the statements below. *)

(** The widgets set as in the end-to-end scenario of the specification. *)
Definition scenario : controls :=
  {| recoil_compensation := true; bloom_reduction := false;
     require_ads := false; show_crosshair := false; use_makcu := false;
     recoil_strength := 10; smoothing := 5; bloom_intensity := 2;
     crosshair_size := 5; crosshair_thickness := 2;
     crosshair_color := "#BF40BF" |}.

(** Widgets with the smoothing forced below its range. *)
Definition degenerate : controls :=
  {| recoil_compensation := true; bloom_reduction := true;
     require_ads := true; show_crosshair := false; use_makcu := true;
     recoil_strength := 7; smoothing := -4; bloom_intensity := 3;
     crosshair_size := 5; crosshair_thickness := 2;
     crosshair_color := "#BF40BF" |}.

(** Both buttons held; the generator always picks the lower bound. *)
Definition both_held : env :=
  {| GetAsyncKeyState := λ _, -32768; choice := λ a _, a |}.

(** A connected controller whose device has been unplugged: the port is
    open and every write is refused. *)
Definition unplugged : MakcuController.t :=
  {| MakcuController.serial :=
       Some {| Serial.port := "COM3"; Serial.is_open := true;
               Serial.baudrate := 4000000;
               Serial.timeout := 1; Serial.write_timeout := 1;
               Serial.written := []; Serial.calls := 0;
               Serial.write_ok := λ _, false; Serial.incoming := [] |};
     MakcuController.connected := true;
     MakcuController.port_name := Some "COM3"%string |}.

(** The application as it starts a tick with the given settings and
    controller. *)
Definition started (c : controls) (mc : option MakcuController.t) : t :=
  {| app_state := AppState.init (settings_of c);
     mouse_controller := mc;
     log := [] |}.

End CloudRecoil.

(** ** [Config.save] and the life of the settings *)

Module ConfigFile.

(** What the disk does when [save] opens the file for writing and dumps
    the settings into it. *)
Inductive disk :=
| Writable        (* the dump goes through *)
| OpenRefused     (* [open] raises [IOError]: the file is not touched *)
| DumpInterrupted. (* [open] truncates, then a write raises [IOError] *)

(** [Config.save]: the [IOError] is reported and goes no further.  A dump
    that goes through leaves a document which [json.load] reads back as
    the same dictionary; an interrupted one leaves text that is not
    JSON. *)
Definition save (d : disk) (settings : gmap string value) (f : Config.file)
  : Config.file :=
  match d with
  | Writable => Config.stored settings
  | OpenRefused => f
  | DumpInterrupted => Config.corrupt
  end.

(** The settings after a series of [AppState.update] calls. *)
Definition updated (updates : list (gmap string value)) (s : AppState.t)
  : AppState.t :=
  foldl (λ s u, AppState.update u s) s updates.

End ConfigFile.

(** ** AsyncImageLoader

    Widgets are told apart by an identity; a pixmap is either null or
    holds decoded image data. *)

Module AsyncImageLoader.

Definition widget := nat.

Inductive pixmap :=
| Null
| Image (data : bytes).

(** A finished network reply: its URL, whether it reports an error, and
    the pixmap that [loadFromData] makes of its body. *)
Record reply := {
  url : string;
  error : bool;
  loaded : pixmap;
}.

(** [requested] lists the calls of [manager.get] and [repainted] the
    calls of [widget.update()], oldest first. *)
Record t := {
  cache : gmap string pixmap;
  subscribers : gmap string (list widget);
  requested : list string;
  repainted : list widget;
}.

Definition init : t :=
  {| cache := ∅; subscribers := ∅; requested := []; repainted := [] |}.

Definition get (u : string) (subscriber_widget : widget) (self : t)
  : option pixmap * t :=
  match cache self !! u with
  | Some p => (Some p, self)
  | None =>
      let self1 :=
        match subscribers self !! u with
        | None =>
            {| cache := cache self;
               subscribers := <[u := []]> (subscribers self);
               requested := requested self ++ [u];
               repainted := repainted self |}
        | Some _ => self
        end in
      let waiting := default [] (subscribers self1 !! u) in
      (None,
       if bool_decide (subscriber_widget ∈ waiting) then self1
       else {| cache := cache self1;
               subscribers :=
                 <[u := waiting ++ [subscriber_widget]]> (subscribers self1);
               requested := requested self1;
               repainted := repainted self1 |})
  end.

Definition _on_finished (r : reply) (self : t) : t :=
  let u := url r in
  let cache' :=
    <[u := if error r then Null else loaded r]> (cache self) in
  match subscribers self !! u with
  | Some waiting =>
      {| cache := cache';
         subscribers := delete u (subscribers self);
         requested := requested self;
         repainted := repainted self ++ waiting |}
  | None =>
      {| cache := cache';
         subscribers := subscribers self;
         requested := requested self;
         repainted := repainted self |}
  end.

(** What happens to the loader: a widget asks for a URL, or a reply
    arrives. *)
Inductive op :=
| Get (u : string) (w : widget)
| Finished (r : reply).

Definition step (self : t) (o : op) : t :=
  match o with
  | Get u w => (get u w self).2
  | Finished r => _on_finished r self
  end.

Definition run (ops : list op) (self : t) : t := foldl step self ops.

End AsyncImageLoader.

(** ** Shutdown *)

Module Shutdown.

(** [CloudRecoil.closeEvent], without the windows: the controller is
    closed, the settings are saved and [running] is cleared. *)
Definition closeEvent (d : ConfigFile.disk) (f : Config.file)
    (self : CloudRecoil.t) : CloudRecoil.t * Config.file :=
  let mc :=
    match CloudRecoil.mouse_controller self with
    | Some mc => Some (MakcuController.close mc).2
    | None => None
    end in
  let f' :=
    ConfigFile.save d
      (AppState.get_full_config (CloudRecoil.app_state self)) f in
  ({| CloudRecoil.app_state :=
        {| AppState.settings := AppState.settings (CloudRecoil.app_state self);
           AppState.fps := AppState.fps (CloudRecoil.app_state self);
           AppState.running := false |};
      CloudRecoil.mouse_controller := mc;
      CloudRecoil.log := CloudRecoil.log self |},
   f').

End Shutdown.

(** ** Notions used in the statements on the serial side *)

(** Every write on the serial object is accepted / refused from now on. *)
Definition line_accepts (s : Serial.t) : Prop :=
  Serial.is_open s = true ∧ ∀ k, Serial.write_ok s k = true.

Definition line_refuses (s : Serial.t) : Prop :=
  ∀ k, Serial.write_ok s k = false.

(** The sub-moves that are not [(0, 0)]. *)
Definition nonzero (call : Z * Z) : bool :=
  negb ((call.1 =? 0) && (call.2 =? 0)).

(** The random generator keeps to the bounds it is given. *)
Definition in_bounds (e : CloudRecoil.env) : Prop :=
  ∀ a b, a ≤ b → a ≤ CloudRecoil.choice e a b ≤ b.

(** *** What the statements on [connect] say of a port

    These notions are written out on their own, without the functions
    that [connect] is made of. *)

(** [needle] occurs somewhere in [hay]. *)
Definition occurs_in (needle hay : text) : Prop :=
  ∃ pre post, hay = pre ++ needle ++ post.

(** The lines read before the first read that fails. *)
Fixpoint received (pending : list (option bytes)) : list bytes :=
  match pending with
  | Some raw :: rest => raw :: received rest
  | _ => []
  end.

(** What is made of the answer of a line: every line decoded and
    stripped, the blank ones left out, the others joined by one space,
    all in lower case. *)
Definition heard (u : Unicode.db) (l : Serial.line) : text :=
  lower u
    (join [32%N]
       (List.filter (λ line, negb (is_empty line))
          (map (λ raw, strip (decode raw))
             (received (Serial.line_incoming l))))).

(** The answer of the line holds a keyword of the profile. *)
Definition recognised (u : Unicode.db) (p : MakcuController.profile)
    (l : Serial.line) : Prop :=
  ∃ keyword,
    In keyword (MakcuController.HANDSHAKE_RESPONSE_KEYWORDS p) ∧
    occurs_in (text_of keyword) (heard u l).

(** The port can be opened for the profile, takes the handshake
    command, answers with a keyword and takes the initialising writes
    that the profile asks for. *)
Definition usable (u : Unicode.db) (h : host) (device name : string)
    (p : MakcuController.profile) : Prop :=
  let l := line_of h device name in
  Serial.open_ok l = true ∧
  Serial.line_write_ok l 0 = true ∧
  recognised u p l ∧
  (MakcuController.INIT_SEQUENCE p ≠ [] → Serial.line_write_ok l 1 = true) ∧
  (MakcuController.INIT_COMMAND p ≠ [] →
   Serial.line_write_ok l
     (match MakcuController.INIT_SEQUENCE p with [] => 1 | _ => 2 end)%nat
   = true).

(** The lower case of a character that is not a capital sigma. *)
Definition lower_plain (u : Unicode.db) (c : N) : text :=
  if (c <? 256)%N then [lower_latin1 c] else Unicode.to_lower_full u c.

(** The writes that a successful connection has made on its port. *)
Definition connection_writes (p : MakcuController.profile) : list bytes :=
  [MakcuController.HANDSHAKE_COMMAND p]
  ++ (if MakcuController.nonempty (MakcuController.INIT_SEQUENCE p)
      then [MakcuController.INIT_SEQUENCE p] else [])
  ++ (if MakcuController.nonempty (MakcuController.INIT_COMMAND p)
      then [MakcuController.INIT_COMMAND p] else []).

(** No serial object, or a closed one. *)
Definition port_released (mc : MakcuController.t) : Prop :=
  match MakcuController.serial mc with
  | Some s => Serial.is_open s = false
  | None => True
  end.

(** [parse_int] reads back a signed decimal numeral. *)
Definition parse_int (s : string) : option Z :=
  Z.of_int <$> NilZero.int_of_string s.

(** ** Further notions and sample inputs for the loop *)

(** [self] after a tick has counted itself. *)
Definition counted (self : CloudRecoil.t) : CloudRecoil.t :=
  {| CloudRecoil.app_state := AppState.tick_fps (CloudRecoil.app_state self);
     CloudRecoil.mouse_controller := CloudRecoil.mouse_controller self;
     CloudRecoil.log := CloudRecoil.log self |}.

(** The log entries of one sub-step sent to the hardware with success. *)
Definition hardware_step (call : Z * Z) : list CloudRecoil.event :=
  [CloudRecoil.MakcuMove call.1 call.2; CloudRecoil.MakcuActivity].

(** Settings with the jitter on and a bound below its range. *)
Definition reversed_jitter : CloudRecoil.controls :=
  {| CloudRecoil.recoil_compensation := true;
     CloudRecoil.bloom_reduction := true;
     CloudRecoil.require_ads := false;
     CloudRecoil.show_crosshair := false;
     CloudRecoil.use_makcu := false;
     CloudRecoil.recoil_strength := 11; CloudRecoil.smoothing := 3;
     CloudRecoil.bloom_intensity := -2;
     CloudRecoil.crosshair_size := 5; CloudRecoil.crosshair_thickness := 2;
     CloudRecoil.crosshair_color := "#BF40BF" |}.

(** Settings that select the hardware, with more steps than pixels. *)
Definition through_hardware : CloudRecoil.controls :=
  {| CloudRecoil.recoil_compensation := true;
     CloudRecoil.bloom_reduction := false;
     CloudRecoil.require_ads := false;
     CloudRecoil.show_crosshair := false;
     CloudRecoil.use_makcu := true;
     CloudRecoil.recoil_strength := 2; CloudRecoil.smoothing := 4;
     CloudRecoil.bloom_intensity := 0;
     CloudRecoil.crosshair_size := 5; CloudRecoil.crosshair_thickness := 2;
     CloudRecoil.crosshair_color := "#BF40BF" |}.

(** An open port on which every write goes through / is refused. *)
Definition good_port : Serial.t :=
  {| Serial.port := "COM3"; Serial.is_open := true;
     Serial.baudrate := 4000000;
     Serial.timeout := 1; Serial.write_timeout := 1;
     Serial.written := []; Serial.calls := 0;
     Serial.write_ok := λ _, true; Serial.incoming := [] |}.

Definition dead_port : Serial.t :=
  {| Serial.port := "COM3"; Serial.is_open := true;
     Serial.baudrate := 4000000;
     Serial.timeout := 1; Serial.write_timeout := 1;
     Serial.written := []; Serial.calls := 0;
     Serial.write_ok := λ _, false; Serial.incoming := [] |}.

Definition connected_on (s : Serial.t) : MakcuController.t :=
  {| MakcuController.serial := Some s;
     MakcuController.connected := true;
     MakcuController.port_name := Some (Serial.port s) |}.

(** A host with one port, on which a MAKCU device answers the version
    request in capitals and takes every write. *)
Definition makcu_host : host :=
  {| comports := ["COM7"%string];
     line_of := λ _ _,
       {| Serial.open_ok := true;
          Serial.line_write_ok := λ _, true;
          Serial.line_incoming :=
            [Some (encode ("  " ++ CR ++ LF));
             Some (encode ("KM.MAKCU v3.2" ++ CR ++ LF))] |} |}.

(** A host whose only port answers the handshake but then refuses the
    writes that would finish the connection. *)
Definition fickle_host : host :=
  {| comports := ["COM7"%string];
     line_of := λ _ _,
       {| Serial.open_ok := true;
          Serial.line_write_ok := λ k, bool_decide (k = 0%nat);
          Serial.line_incoming := [Some (encode "km.MAKCU v3.2")] |} |}.

(** A host with two ports: the first cannot be opened, and on the second
    a device answers as the second profile of the catalogue. *)
Definition two_port_host : host :=
  {| comports := ["COM1"; "COM2"]%string;
     line_of := λ device _,
       {| Serial.open_ok := String.eqb device "COM2";
          Serial.line_write_ok := λ _, true;
          Serial.line_incoming :=
            [Some (encode ("OtherBox 1.0" ++ CR ++ LF))] |} |}.

(** A host whose device answers [k], a byte that is not UTF-8, [m]. *)
Definition noisy_host : host :=
  {| comports := ["COM1"%string];
     line_of := λ _ _,
       {| Serial.open_ok := true;
          Serial.line_write_ok := λ _, true;
          Serial.line_incoming := [Some [x6b; xff; x6d; x0d; x0a]] |} |}.

(** The characters of a numeral: digits and the minus sign. *)
Definition numeral_char (c : ascii) : Prop :=
  (c = "-" ∨ c = "0" ∨ c = "1" ∨ c = "2" ∨ c = "3" ∨ c = "4" ∨ c = "5"
   ∨ c = "6" ∨ c = "7" ∨ c = "8" ∨ c = "9")%char.

Fixpoint all_chars (P : ascii → Prop) (s : string) : Prop :=
  match s with
  | EmptyString => True
  | String c s' => P c ∧ all_chars P s'
  end.

(** Every URL that the loader requested is cached or still waited for. *)
Definition accounted (self : AsyncImageLoader.t) : Prop :=
  ∀ u, u ∈ AsyncImageLoader.requested self →
       is_Some (AsyncImageLoader.cache self !! u)
       ∨ is_Some (AsyncImageLoader.subscribers self !! u).

(** * Properties *)

(** ** [distribute_movement] *)

Section Distribute.

Lemma for_each_app {A S} (body : S → A → result S) (xs ys : list A) (s : S) :
  for_each body (xs ++ ys) s = (s' ← for_each body xs s; for_each body ys s').
Proof.
  revert s. induction xs as [|x xs IH]; intros s; simpl; [done|].
  unfold mbind, result_bind. destruct (body s x); [apply IH | done].
Qed.

Lemma incr_at_boundary (b : Z) (k m : nat) :
  incr_at (replicate k (b + 1) ++ replicate (S m) b) k
  = Ok (replicate (S k) (b + 1) ++ replicate m b).
Proof.
  unfold incr_at.
  rewrite lookup_app_r by (rewrite length_replicate; lia).
  rewrite length_replicate, Nat.sub_diag. simpl.
  f_equal.
  rewrite insert_app_r_alt by (rewrite length_replicate; lia).
  rewrite length_replicate, Nat.sub_diag. simpl.
  by rewrite app_comm_cons, replicate_cons_app, <- app_assoc.
Qed.

(** The loop [for i in range(r): moves[i] += 1] on a list of [n >= r]
    equal entries never leaves the list and raises its first [r] entries. *)
Lemma raise_prefix (b : Z) (n r : nat) :
  (r ≤ n)%nat →
  for_each incr_at (seq 0 r) (replicate n b)
  = Ok (replicate r (b + 1) ++ replicate (n - r) b).
Proof.
  induction r as [|r IH]; intros Hr.
  - simpl. by rewrite Nat.sub_0_r.
  - rewrite seq_S, for_each_app, IH by lia. simpl.
    unfold mbind, result_bind.
    replace (n - r)%nat with (S (n - S r)) by lia.
    by rewrite incr_at_boundary.
Qed.

Lemma distribute_movement_closed (total steps : Z) :
  0 < steps →
  distribute_movement total steps
  = Ok (replicate (Z.to_nat (total `mod` steps)) (total `div` steps + 1)
        ++ replicate (Z.to_nat steps - Z.to_nat (total `mod` steps))
                     (total `div` steps)).
Proof.
  intros Hs. unfold distribute_movement, range.
  destruct (Z.leb_spec steps 0); [lia|].
  apply raise_prefix.
  pose proof (Z.mod_pos_bound total steps Hs). lia.
Qed.

Lemma sum_app (l1 l2 : list Z) : sum (l1 ++ l2) = sum l1 + sum l2.
Proof. unfold sum. induction l1; simpl; lia. Qed.

Lemma sum_replicate (n : nat) (b : Z) : sum (replicate n b) = Z.of_nat n * b.
Proof. unfold sum. induction n; simpl; lia. Qed.

Lemma sum_distribution (r n : nat) (b : Z) :
  (r ≤ n)%nat →
  sum (replicate r (b + 1) ++ replicate (n - r) b) = Z.of_nat n * b + Z.of_nat r.
Proof.
  intros Hr. rewrite sum_app, !sum_replicate, Nat2Z.inj_sub by done. ring.
Qed.

(** C1. [distribute_movement total steps] is empty when [steps <= 0];
    otherwise it has exactly [steps] entries, entry [i] is
    [total // steps], plus one for the first [total % steps] indices, and
    the entries add up to [total].  In particular 10 over 3 gives
    [4,3,3], 0 over 5 gives five zeros and 7 over 1 gives [7]. *)
Theorem distribute_movement_spec (total steps : Z) :
  (steps ≤ 0 → distribute_movement total steps = Ok []) ∧
  (0 < steps →
   ∃ moves : list Z,
     distribute_movement total steps = Ok moves ∧
     Z.of_nat (length moves) = steps ∧
     (∀ i : nat, Z.of_nat i < steps →
        moves !! i
        = Some (if Z.of_nat i <? total `mod` steps
                then total `div` steps + 1 else total `div` steps)) ∧
     sum moves = total) ∧
  distribute_movement 10 3 = Ok [4; 3; 3] ∧
  distribute_movement 0 5 = Ok [0; 0; 0; 0; 0] ∧
  distribute_movement 7 1 = Ok [7].
Proof.
  split; [|split; [|by vm_compute]].
  - intros Hs. unfold distribute_movement.
    by destruct (Z.leb_spec steps 0); [|lia].
  - intros Hs. eexists. split; [by apply distribute_movement_closed|].
    pose proof (Z.mod_pos_bound total steps Hs) as Hr.
    pose proof (Z.div_mod total steps ltac:(lia)) as Hdm.
    split; [|split].
    + rewrite length_app, !length_replicate. lia.
    + intros i Hi. destruct (Z.ltb_spec (Z.of_nat i) (total `mod` steps)).
      * rewrite lookup_app_l by (rewrite length_replicate; lia).
        apply lookup_replicate_2. lia.
      * rewrite lookup_app_r by (rewrite length_replicate; lia).
        apply lookup_replicate_2. rewrite length_replicate. lia.
    + rewrite sum_distribution by lia. rewrite !Z2Nat.id by lia. lia.
Qed.

Lemma distribute_movement_spec_witness :
  ∃ moves : list Z,
    distribute_movement 11 3 = Ok moves ∧
    Z.of_nat (length moves) = 3 ∧
    (∀ i : nat, Z.of_nat i < 3 →
       moves !! i
       = Some (if Z.of_nat i <? 11 `mod` 3
               then 11 `div` 3 + 1 else 11 `div` 3)) ∧
    sum moves = 11.
Proof. apply (proj1 (proj2 (distribute_movement_spec 11 3))). lia. Defined.

(** C4. For a negative [total] and [steps >= 1] the base move and the
    remainder are those of floor division: [base] rounds towards minus
    infinity and the remainder lies in [0, steps).  The first
    [remainder] entries are [base + 1], the others [base], and they add
    up to [total]; -7 over 3 gives [-2,-2,-3]. *)
Theorem distribute_movement_negative (total steps : Z) :
  total < 0 → 1 ≤ steps →
  ∃ base remainder : Z,
    total = steps * base + remainder ∧
    0 ≤ remainder < steps ∧
    base < 0 ∧
    distribute_movement total steps
    = Ok (replicate (Z.to_nat remainder) (base + 1)
          ++ replicate (Z.to_nat (steps - remainder)) base) ∧
    (∀ moves, distribute_movement total steps = Ok moves → sum moves = total) ∧
    distribute_movement (-7) 3 = Ok [-2; -2; -3].
Proof.
  intros Ht Hs. exists (total `div` steps), (total `mod` steps).
  pose proof (Z.mod_pos_bound total steps ltac:(lia)) as Hr.
  pose proof (Z.div_mod total steps ltac:(lia)) as Hdm.
  assert (total `div` steps < 0) by (apply Z.div_lt_upper_bound; lia).
  rewrite distribute_movement_closed by lia.
  replace (Z.to_nat (steps - total `mod` steps))
    with (Z.to_nat steps - Z.to_nat (total `mod` steps))%nat by lia.
  repeat split; try done; try lia.
  intros moves [= <-]. rewrite sum_distribution by lia.
  rewrite !Z2Nat.id by lia. lia.
Qed.

Lemma distribute_movement_negative_witness :
  ∃ base remainder : Z,
    -7 = 3 * base + remainder ∧
    0 ≤ remainder < 3 ∧
    base < 0 ∧
    distribute_movement (-7) 3
    = Ok (replicate (Z.to_nat remainder) (base + 1)
          ++ replicate (Z.to_nat (3 - remainder)) base) ∧
    (∀ moves, distribute_movement (-7) 3 = Ok moves → sum moves = -7) ∧
    distribute_movement (-7) 3 = Ok [-2; -2; -3].
Proof. apply (distribute_movement_negative (-7) 3); lia. Defined.

End Distribute.

(** ** [Config.load] *)

Section ConfigLoad.

Import Config.

Lemma load_stored (d : gmap string value) : load (stored d) = Ok (d ∪ DEFAULTS).
Proof. reflexivity. Qed.

Lemma default_smoothing : DEFAULTS !! "smoothing"%string = Some (VInt 3).
Proof. by vm_compute. Qed.

(** A JSON document whose top level is not an object is parsed without
    error, and the [TypeError] of unpacking it is not among the exceptions
    that [load] handles. *)
Lemma load_non_object : load {| exists_ := true; parsed := Ok JOther |} = Raise TypeError.
Proof. reflexivity. Qed.

(** A file that cannot be read is handled like one that is not JSON. *)
Lemma load_unreadable : load unreadable = Ok DEFAULTS.
Proof. reflexivity. Qed.

(** An unknown key of the document stays in the loaded dictionary, as an
    entry that nothing reads. *)
Lemma load_carries_unknown (d : gmap string value) (k : string) (v : value) :
  load (stored (<[k := v]> d)) = Ok (<[k := v]> (d ∪ DEFAULTS)).
Proof. rewrite !load_stored. by rewrite insert_union_l. Qed.

(** C8 as stated fails twice.  A key that is not among the defaults is
    not ignored: it is loaded with the rest.  And not every corrupt
    document gives the defaults: a JSON document that is not an object,
    and a file whose bytes cannot be decoded, make [load] raise. *)
Lemma load_not_as_claimed :
  (∃ cfg,
     load (stored {[ "turbo"%string := VBool true ]}) = Ok cfg ∧
     cfg !! "turbo"%string = Some (VBool true)) ∧
  load not_an_object = Raise TypeError ∧
  load undecodable = Raise UnicodeDecodeError.
Proof.
  split; [|done]. eexists. split; [apply load_stored|]. by vm_compute.
Qed.

(** C8, as the code has it. [load] merges the stored document over the
    defaults: every key of the document keeps the stored value and every
    other key of the defaults keeps its default.  So a document without
    [smoothing] loads with [smoothing = 3]; a key that is not among the
    defaults is loaded with its value and changes nothing of what the
    known keys load as; and a missing file, a file that cannot be read
    and a file whose text is not JSON give exactly the defaults. *)
Theorem load_merges_over_defaults :
  (∀ d : gmap string value,
     ∃ cfg, load (stored d) = Ok cfg ∧
       ∀ k, cfg !! k = match d !! k with
                       | Some v => Some v
                       | None => DEFAULTS !! k
                       end) ∧
  (∀ d : gmap string value,
     d !! "smoothing"%string = None →
     ∃ cfg, load (stored d) = Ok cfg ∧
            cfg !! "smoothing"%string = Some (VInt 3)) ∧
  (∀ (d : gmap string value) (extra : string) (v : value),
     ¬ known extra →
     ∃ cfg cfg',
       load (stored (<[extra := v]> d)) = Ok cfg ∧
       load (stored d) = Ok cfg' ∧
       cfg !! extra = Some v ∧
       ∀ k, known k → is_Some (cfg !! k) ∧ cfg !! k = cfg' !! k) ∧
  (∀ p, load (missing p) = Ok DEFAULTS) ∧
  load unreadable = Ok DEFAULTS ∧
  load corrupt = Ok DEFAULTS.
Proof.
  split; [|split; [|split; [|split; [|split]]]].
  - intros d. eexists. split; [apply load_stored|].
    intros k. rewrite lookup_union. destruct (d !! k), (DEFAULTS !! k); done.
  - intros d Hd. eexists. split; [apply load_stored|].
    by rewrite lookup_union_r, default_smoothing.
  - intros d extra v Hextra. do 2 eexists.
    split; [apply load_stored|]. split; [apply load_stored|].
    split.
    { apply lookup_union_Some_l, lookup_insert_eq. }
    intros k [w Hk].
    assert (extra ≠ k) as Hne.
    { intros ->. apply Hextra. by exists w. }
    rewrite !lookup_union, lookup_insert_ne, Hk by done.
    split; [|done]. destruct (d !! k); by eexists.
  - done.
  - done.
  - done.
Qed.

Lemma load_merges_over_defaults_witness :
  (∃ cfg,
     load (stored {[ "recoil_strength"%string := VInt 15 ]}) = Ok cfg ∧
     cfg !! "smoothing"%string = Some (VInt 3)) ∧
  (∃ cfg cfg',
     load (stored (<["turbo"%string := VBool true]>
                     {[ "recoil_strength"%string := VInt 15 ]})) = Ok cfg ∧
     load (stored {[ "recoil_strength"%string := VInt 15 ]}) = Ok cfg' ∧
     cfg !! "turbo"%string = Some (VBool true) ∧
     ∀ k, known k → is_Some (cfg !! k) ∧ cfg !! k = cfg' !! k).
Proof.
  split.
  - apply (proj1 (proj2 load_merges_over_defaults)). by vm_compute.
  - apply (proj1 (proj2 (proj2 load_merges_over_defaults))).
    intros [w Hw]. by vm_compute in Hw.
Defined.

End ConfigLoad.

(** ** Text *)

Section TextFacts.

Lemma starts_with_app (n post : text) : starts_with n (n ++ post) = true.
Proof.
  induction n as [|c n IH]; simpl; [done|].
  by rewrite N.eqb_refl, IH.
Qed.

Lemma starts_with_split (n h : text) :
  starts_with n h = true → ∃ post, h = n ++ post.
Proof.
  revert h. induction n as [|c n IH]; intros h; simpl.
  - intros _. by exists h.
  - destruct h as [|c' h]; [done|].
    intros Hp. apply andb_true_iff in Hp as [Hc Hp].
    apply N.eqb_eq in Hc as <-.
    destruct (IH h Hp) as [post ->]. by exists post.
Qed.

Lemma contains_starts_with (n h : text) :
  starts_with n h = true → contains n h = true.
Proof. intros Hp. destruct h; cbn [contains]; by rewrite Hp. Qed.

Lemma contains_app (pre n post : text) : contains n (pre ++ n ++ post) = true.
Proof.
  induction pre as [|c pre IH].
  - apply (contains_starts_with n (n ++ post)). apply starts_with_app.
  - simpl. rewrite IH. apply orb_true_r.
Qed.

Lemma contains_split (n h : text) :
  contains n h = true → ∃ pre post, h = pre ++ n ++ post.
Proof.
  induction h as [|c h IH]; cbn [contains].
  - rewrite orb_false_r. intros Hp.
    destruct (starts_with_split n [] Hp) as [post Hpost].
    by exists [], post.
  - intros Hc. apply orb_true_iff in Hc as [Hp | Hc].
    + destruct (starts_with_split n (c :: h) Hp) as [post ->].
      by exists [], post.
    + destruct (IH Hc) as (pre & post & ->). by exists (c :: pre), post.
Qed.

(** [needle in hay] decides that [needle] occurs in [hay]. *)
Lemma contains_occurs (n h : text) : contains n h = true ↔ occurs_in n h.
Proof.
  split; [apply contains_split|].
  intros (pre & post & ->). apply contains_app.
Qed.

Lemma any_keyword_recognises (keywords : list string) (t : text) :
  MakcuController.any_keyword keywords t = true
  ↔ ∃ keyword, In keyword keywords ∧ occurs_in (text_of keyword) t.
Proof.
  unfold MakcuController.any_keyword. rewrite existsb_exists.
  split; intros (k & Hk & Hc); exists k; (split; [done|]);
    by apply contains_occurs.
Qed.

(** The lines that the reading loop keeps. *)
Lemma drain_received (pending : list (option bytes)) :
  (MakcuController.drain pending).1
  = List.filter (λ line, negb (is_empty line))
      (map (λ raw, strip (decode raw)) (received pending)).
Proof.
  induction pending as [|[raw|] rest IH]; simpl; [done| |done].
  destruct (MakcuController.drain rest) as [lines unread]. simpl in *.
  rewrite IH. by destruct (is_empty (strip (decode raw))).
Qed.

Lemma response_heard (u : Unicode.db) (l : Serial.line) :
  MakcuController.response u l = heard u l.
Proof.
  unfold MakcuController.response, heard. by rewrite drain_received.
Qed.

Lemma code_below_256 (s : string) : Forall (λ c, (c < 256)%N) (text_of s).
Proof.
  unfold text_of. induction s as [|c s IH]; simpl; constructor; [|done].
  apply N_ascii_bounded.
Qed.

(** Lower case is taken character by character, except for the capital
    sigma, whose small form depends on what surrounds it. *)
Lemma lower_from_plain (u : Unicode.db) (before a b : text) :
  931%N ∉ a →
  lower_from u before (a ++ b)
  = flat_map (lower_plain u) a ++ lower_from u (rev a ++ before) b.
Proof.
  revert before. induction a as [|c a IH]; intros before Hno; [done|].
  apply not_elem_of_cons in Hno as [Hc Hno]. simpl.
  rewrite IH by done.
  replace ((rev a ++ [c]) ++ before) with (rev a ++ c :: before)
    by (by rewrite <- app_assoc).
  rewrite <- app_assoc. f_equal.
  unfold lower_at, lower_plain.
  by destruct (N.eqb_spec c 931) as [->|_].
Qed.

Lemma lower_from_prefix (u : Unicode.db) (before a b : text) :
  ∃ front,
    lower_from u before (a ++ b)
    = front ++ lower_from u (rev a ++ before) b.
Proof.
  revert before. induction a as [|c a IH]; intros before.
  - by exists [].
  - destruct (IH (c :: before)) as [front Hfront]. simpl.
    rewrite Hfront.
    replace ((rev a ++ [c]) ++ before) with (rev a ++ c :: before)
      by (by rewrite <- app_assoc).
    exists (lower_at u before (a ++ b) c ++ front).
    by rewrite <- app_assoc.
Qed.

Lemma lower_from_sigma (u : Unicode.db) (before a : text) :
  931%N ∈ a → ∃ c, c ∈ lower_from u before a ∧ (256 ≤ c)%N.
Proof.
  revert before. induction a as [|c a IH]; intros before Hin.
  - by apply not_elem_of_nil in Hin.
  - simpl. destruct (N.eqb_spec c 931) as [->|Hne].
    + unfold lower_at. simpl.
      destruct (final_sigma u before a);
        eexists; (split; [apply list_elem_of_here | lia]).
    + apply elem_of_cons in Hin as [Heq|Hin]; [done|].
      destruct (IH (c :: before) Hin) as (x & Hx & Hbig).
      exists x. split; [|done]. apply elem_of_app. by right.
Qed.

(** A text whose lower case is a [str] literal of the source holds no
    capital sigma. *)
Lemma lower_literal_plain (u : Unicode.db) (variant : text) (s : string) :
  lower u variant = text_of s → 931%N ∉ variant.
Proof.
  intros Hlow Hin.
  destruct (lower_from_sigma u [] variant Hin) as (c & Hc & Hbig).
  unfold lower in Hlow. rewrite Hlow in Hc.
  pose proof (code_below_256 s) as Hall.
  rewrite Forall_forall in Hall. specialize (Hall c Hc). lia.
Qed.

Lemma lower_occurs (u : Unicode.db) (pre variant post : text) (s : string) :
  lower u variant = text_of s →
  occurs_in (text_of s) (lower u (pre ++ variant ++ post)).
Proof.
  intros Hlow.
  pose proof (lower_literal_plain u variant s Hlow) as Hplain.
  assert (flat_map (lower_plain u) variant = text_of s) as Hv.
  { rewrite <- Hlow. unfold lower.
    pose proof (lower_from_plain u [] variant [] Hplain) as Happ.
    rewrite !app_nil_r in Happ. done. }
  unfold lower.
  destruct (lower_from_prefix u [] pre (variant ++ post)) as [front ->].
  rewrite lower_from_plain, Hv by done.
  by eexists front, _.
Qed.

End TextFacts.

(** ** [MakcuController] *)

Section Makcu.

Import MakcuController.

Ltac run_M :=
  unfold try_except, close, close_if_open, on_serial_, on_serial, lift,
    set_serial, set_connected, set_port_name, raise,
    mbind, M_bind, mret, M_ret; simpl.

(** [move] never raises. *)
Lemma move_total (x y : Z) (self : t) :
  ∃ sent self', move x y self = (Ok sent, self').
Proof.
  unfold move.
  destruct (negb (connected self) || negb (bool_decide (is_Some (serial self))))
    eqn:Hguard; [by eauto|].
  destruct ((x =? 0) && (y =? 0)); [by eauto|].
  destruct (serial self) as [s|] eqn:Hs.
  - run_M. rewrite Hs. simpl.
    destruct (Serial.is_open s && Serial.write_ok s (Serial.calls s)); simpl; eauto.
  - rewrite bool_decide_eq_false_2 in Hguard by (intros [? ?]; done).
    by rewrite orb_true_r in Hguard.
Qed.

Lemma move_zero (self : t) :
  move 0 0 self
  = (Ok (connected self && bool_decide (is_Some (serial self))), self).
Proof.
  unfold move. by destruct (connected self), (bool_decide (is_Some (serial self))).
Qed.

(** A refused write: [move] answers [False], has called [write] once and
    has cleared [connected]. *)
Lemma move_write_refused (x y : Z) (self : t) (s : Serial.t) :
  connected self = true →
  serial self = Some s →
  (x =? 0) && (y =? 0) = false →
  Serial.is_open s && Serial.write_ok s (Serial.calls s) = false →
  move x y self
  = (Ok false,
     {| serial := Some (Serial.write (MOVE_CMD x y) s).2;
        connected := false;
        port_name := port_name self |}).
Proof.
  intros Hc Hs Hxy Hw. unfold move. rewrite Hc, Hs, Hxy. simpl.
  run_M. rewrite Hs. simpl. rewrite Hw. simpl. done.
Qed.

(** C10. Whatever [(x, y)] is, [(0, 0)] included, [move] on a controller
    that is not connected or has no serial object answers [False] and
    leaves the controller, hence everything written so far, as it was. *)
Theorem move_not_connected (x y : Z) (self : t) :
  connected self = false ∨ serial self = None →
  move x y self = (Ok false, self) ∧ move 0 0 self = (Ok false, self).
Proof.
  intros H.
  assert (negb (connected self) || negb (bool_decide (is_Some (serial self)))
          = true) as Hguard.
  { destruct H as [-> | ->]; [done|].
    rewrite bool_decide_eq_false_2 by (intros [? ?]; done).
    apply orb_true_r. }
  unfold move. by rewrite Hguard.
Qed.

Lemma move_not_connected_witness :
  move 4 (-3) init = (Ok false, init) ∧ move 0 0 init = (Ok false, init).
Proof. apply (move_not_connected 4 (-3) init). left. reflexivity. Defined.

(** C6, as the code has it. [move 0 0] never touches the controller or
    its serial object, so it writes nothing; it answers [True] exactly
    when the controller is connected and has a serial object, and
    [False] otherwise. *)
Theorem move_zero_writes_nothing (self : t) :
  ∃ sent : bool,
    move 0 0 self = (Ok sent, self) ∧
    (sent = true ↔ connected self = true ∧ is_Some (serial self)).
Proof.
  eexists. split; [apply move_zero|].
  rewrite andb_true_iff, bool_decide_eq_true. done.
Qed.

(** C6 as stated fails on a controller that was never connected:
    [move 0 0] answers [False] there. *)
Lemma move_zero_fails_when_disconnected :
  move 0 0 init = (Ok false, init) ∧ (move 0 0 init).1 ≠ Ok true.
Proof. split; [reflexivity | discriminate]. Qed.

(** One candidate: the outcome depends on the line alone, and the
    controller is marked connected exactly when the candidate is accepted. *)
Lemma try_candidate_spec (u : Unicode.db) (h : host)
    (c : string * (string * profile)) (self : t) :
  ∃ self', try_candidate u h c self = (Ok (accepted u h c), self') ∧
           connected self' = accepted u h c || connected self.
Proof.
  destruct c as [device [name p]].
  unfold try_candidate, attempt, _finalize_connection, _read_response,
    accepted, answers, finalizes, response, Serial.open.
  simpl. set (l := line_of h device name).
  destruct (Serial.open_ok l) eqn:Hopen; run_M.
  2:{ destruct (serial self) as [s|]; [destruct (Serial.is_open s)|];
      simpl; eauto. }
  destruct (Serial.line_write_ok l 0) eqn:Hw0; simpl; [|by eauto].
  destruct (drain (Serial.line_incoming l)) as [lines unread]; simpl.
  destruct (any_keyword _ _); simpl; [|by eauto].
  destruct (nonempty (INIT_SEQUENCE p)); simpl;
    [destruct (Serial.line_write_ok l 1); simpl; [|by eauto]|];
    destruct (BAUDRATE_HIGH p =? BAUDRATE_DEFAULT); simpl;
    destruct (nonempty (INIT_COMMAND p)); simpl;
    repeat match goal with
           | |- context [Serial.line_write_ok l ?n] =>
               destruct (Serial.line_write_ok l n); simpl
           end; eauto.
Qed.

Lemma search_spec (u : Unicode.db) (h : host)
    (cs : list (string * (string * profile))) (self : t) :
  ∃ self', search u h cs self = (Ok (existsb (accepted u h) cs), self') ∧
           connected self' = existsb (accepted u h) cs || connected self.
Proof.
  revert self. induction cs as [|c cs IH]; intros self; simpl.
  - by eexists.
  - destruct (try_candidate_spec u h c self) as (s1 & Htry & Hconn).
    unfold mbind, M_bind. rewrite Htry.
    destruct (accepted u h c); simpl.
    + eexists. split; [done|]. by rewrite Hconn.
    + destruct (IH s1) as (s2 & Hsearch & Hconn2).
      eexists. split; [done|]. by rewrite Hconn2, Hconn.
Qed.

(** [connect] always returns; it returns [True] exactly when some
    candidate is accepted, and [connected] ends up equal to the result. *)
Lemma connect_spec (u : Unicode.db) (h : host) (self : t) :
  ∃ self',
    connect u true h self
    = (Ok (existsb (accepted u h) (candidates h)), self') ∧
    connected self' = existsb (accepted u h) (candidates h).
Proof.
  unfold connect. simpl.
  assert (∃ s0, close self = (Ok (), s0) ∧ connected s0 = false)
    as (s0 & Hclose & Hconn0).
  { run_M. destruct (serial self) as [s|]; [destruct (Serial.is_open s)|];
      simpl; eauto. }
  unfold mbind at 1. unfold M_bind. rewrite Hclose.
  destruct (search_spec u h (candidates h) s0) as (s1 & Hsearch & Hconn1).
  eexists. split; [done|]. by rewrite Hconn1, Hconn0, orb_false_r.
Qed.

(** The search goes through every port with every profile. *)
Lemma candidates_elem (h : host) (device name : string) (p : profile) :
  (device, (name, p)) ∈ candidates h
  ↔ device ∈ comports h ∧ (name, p) ∈ DEVICE_PROFILES.
Proof.
  split.
  - intros Hc. apply list_elem_of_In in Hc. unfold candidates in Hc.
    apply in_flat_map in Hc as (d & Hd & Hin).
    apply in_map_iff in Hin as (np & Heq & Hnp). injection Heq as <- <-.
    split; by apply list_elem_of_In.
  - intros [Hd Hp]. apply list_elem_of_In. unfold candidates.
    apply in_flat_map. exists device. split; [by apply list_elem_of_In|].
    apply in_map_iff. exists (name, p). split; [done|].
    by apply list_elem_of_In.
Qed.

(** A candidate is accepted by the code exactly when its port is usable
    for its profile. *)
Lemma accepted_usable (u : Unicode.db) (h : host) (device name : string)
    (p : profile) :
  accepted u h (device, (name, p)) = true ↔ usable u h device name p.
Proof.
  unfold accepted, answers, finalizes, usable, recognised. simpl.
  rewrite !andb_true_iff, any_keyword_recognises, response_heard.
  destruct (INIT_SEQUENCE p), (INIT_COMMAND p); simpl;
    split; intros Hall; repeat split; try tauto; try done;
    try (intros _; tauto); apply Hall; done.
Qed.

Lemma none_accepted (u : Unicode.db) (h : host) :
  existsb (accepted u h) (candidates h) = false
  ↔ ∀ device name p,
      device ∈ comports h → (name, p) ∈ DEVICE_PROFILES →
      ¬ usable u h device name p.
Proof.
  rewrite <- not_true_iff_false, existsb_exists. split.
  - intros Hno device name p Hd Hp Huse. apply Hno.
    exists (device, (name, p)). split.
    + apply list_elem_of_In, candidates_elem. done.
    + by apply accepted_usable.
  - intros Hall ([device [name p]] & Hc & Hacc).
    apply list_elem_of_In, candidates_elem in Hc as [Hd Hp].
    apply (Hall device name p Hd Hp). by apply accepted_usable.
Qed.

(** C7. [connect] returns [False] and leaves the controller disconnected
    when no enumerated port, tried with any profile of the catalogue,
    answers the handshake with text that holds a keyword of the profile.
    A candidate whose opening or handshake write raises is passed over:
    the exception goes no further, the controller stays as connected as
    it was and the search goes on with the remaining candidates.
    [connect] always returns, and it returns [False] only when every
    port has been turned down with every profile: one usable pair
    anywhere in the enumeration makes it return [True]. *)
Theorem connect_not_found (u : Unicode.db) (h : host) (self : t) :
  ((∀ device name p,
      device ∈ comports h → (name, p) ∈ DEVICE_PROFILES →
      Serial.open_ok (line_of h device name) = true →
      Serial.line_write_ok (line_of h device name) 0 = true →
      ¬ recognised u p (line_of h device name)) →
   ∃ self', connect u true h self = (Ok false, self') ∧
            connected self' = false) ∧
  (∀ device name p rest s,
     Serial.open_ok (line_of h device name) = false
     ∨ Serial.line_write_ok (line_of h device name) 0 = false →
     ∃ s', try_candidate u h (device, (name, p)) s = (Ok false, s') ∧
           connected s' = connected s ∧
           search u h ((device, (name, p)) :: rest) s = search u h rest s') ∧
  (∃ found self',
     connect u true h self = (Ok found, self') ∧
     connected self' = found ∧
     (found = false
      ↔ ∀ device name p,
          device ∈ comports h → (name, p) ∈ DEVICE_PROFILES →
          ¬ usable u h device name p)).
Proof.
  destruct (connect_spec u h self) as (s1 & Hconnect & Hconn).
  split; [|split].
  - intros Hquiet. exists s1.
    assert (existsb (accepted u h) (candidates h) = false) as Hex.
    { apply none_accepted. intros device name p Hd Hp (Ho & Hw & Hrec & _).
      by apply (Hquiet device name p). }
    by rewrite Hconnect, Hconn, Hex.
  - intros device name p rest s Hio.
    destruct (try_candidate_spec u h (device, (name, p)) s)
      as (s' & Htry & Hconn').
    assert (accepted u h (device, (name, p)) = false) as Hacc.
    { apply not_true_iff_false. intros Hacc.
      apply accepted_usable in Hacc as (Ho & Hw & _).
      destruct Hio; congruence. }
    rewrite Hacc in Htry, Hconn'. exists s'. split; [done|]. split; [done|].
    cbn [search]. unfold mbind, M_bind. by rewrite Htry.
  - exists (existsb (accepted u h) (candidates h)), s1.
    split; [done|]. split; [done|]. apply none_accepted.
Qed.

Lemma connect_not_found_witness :
  ∃ self', connect plain_tables true silent_host init = (Ok false, self') ∧
           connected self' = false.
Proof.
  apply (proj1 (connect_not_found plain_tables silent_host init)).
  intros device name p _ Hp _ _ Hrec.
  assert (any_keyword (HANDSHAKE_RESPONSE_KEYWORDS p)
            (response plain_tables (line_of silent_host device name)) = true)
    as Hany.
  { rewrite any_keyword_recognises, response_heard. exact Hrec. }
  apply list_elem_of_In in Hp. simpl in Hp.
  destruct Hp as [[= <- <-] | [[= <- <-] | []]]; vm_compute in Hany;
    discriminate.
Defined.

(** Bytes that are not UTF-8 are dropped before the answer is matched:
    a device that sends [k], the byte 255 and [m] is taken for a MAKCU. *)
Lemma connect_through_noise :
  (connect plain_tables true noisy_host init).1 = Ok true.
Proof. by vm_compute. Qed.

End Makcu.

(** ** The actuation loop *)

Section Loop.

Import CloudRecoil.

Lemma sends_app (evs1 evs2 : list event) :
  sends (evs1 ++ evs2) = sends evs1 ++ sends evs2.
Proof. apply omap_app. Qed.

(** The sub-step loop runs to its end: it makes one backend call per
    index, with the entries of the two plans at that index; without the
    hardware every call is a [mouse_event] and the controller is not
    touched. *)
Lemma substeps_run (use_hw : bool) (xs ys : list Z) (n : nat) (self : t) :
  (n ≤ length xs)%nat → (n ≤ length ys)%nat →
  (use_hw = true → is_Some (mouse_controller self)) →
  ∃ self' evs,
    for_each (substep use_hw xs ys) (seq 0 n) self = Ok self' ∧
    log self' = log self ++ evs ∧
    app_state self' = app_state self ∧
    sends evs = zip (take n xs) (take n ys) ∧
    (use_hw = true → is_Some (mouse_controller self')) ∧
    (use_hw = false →
     mouse_controller self' = mouse_controller self ∧
     evs = zip_with MouseEvent (take n xs) (take n ys)).
Proof.
  intros Hx Hy Hmc. induction n as [|n IH].
  - exists self, []. simpl. by rewrite app_nil_r.
  - destruct IH as (s1 & evs & Hrun & Hlog & Hst & Hsends & Hmc1 & Hsw);
      [lia | lia |].
    rewrite seq_S, for_each_app, Hrun. simpl.
    destruct (lookup_lt_is_Some_2 xs n ltac:(lia)) as [dx Hdx].
    destruct (lookup_lt_is_Some_2 ys n ltac:(lia)) as [dy Hdy].
    rewrite (take_S_r xs n dx), (take_S_r ys n dy) by done.
    rewrite zip_with_app by (rewrite !length_take; lia).
    unfold mbind, result_bind, substep, index. rewrite Hdx, Hdy. simpl.
    destruct use_hw.
    + destruct (Hmc1 eq_refl) as [mc Hsome]. rewrite Hsome.
      destruct (move_total dx dy mc) as (sent & mc' & Hmove).
      rewrite Hmove. eexists _, (evs ++ MakcuMove dx dy :: _). simpl.
      split; [done|]. split; [by rewrite Hlog, <- app_assoc|].
      split; [done|]. split; [|split; [by eauto | done]].
      rewrite sends_app, Hsends. by destruct sent.
    + destruct (Hsw eq_refl) as [Hsame Hevs].
      exists (emit [MouseEvent dx dy] s1), (evs ++ [MouseEvent dx dy]). simpl.
      split; [done|]. split; [by rewrite Hlog, <- app_assoc|].
      split; [done|]. split; [by rewrite sends_app, Hsends|].
      split; [done|]. intros _. split; [done|].
      rewrite zip_with_app by (rewrite !length_take; lia). by rewrite Hevs.
Qed.

(** The settings that [update_settings] leaves in the shared state hold
    every widget value, whatever was there before. *)
Lemma update_settings_typed (c : controls) (self : t) :
  settings_of c ⊆ AppState.settings (app_state (update_settings c self)).
Proof. simpl. apply map_union_subseteq_l. Qed.

Lemma typed_getitem (c : controls) (config : gmap string value)
    (k : string) (v : value) :
  settings_of c ⊆ config → settings_of c !! k = Some v →
  getitem config k = Ok v.
Proof.
  intros Hsub Hk. unfold getitem. by rewrite (lookup_weaken _ _ _ _ Hk Hsub).
Qed.

Lemma max1_int (s : Z) : max1 (VInt s) = Ok (Z.max 1 s).
Proof.
  unfold max1. simpl. f_equal. destruct (Z.ltb_spec 1 s); lia.
Qed.

Lemma distribute_value_int (total steps : Z) :
  distribute_value (VInt total) steps = distribute_movement total steps.
Proof.
  unfold distribute_value, distribute_movement. simpl.
  by destruct (steps <=? 0).
Qed.

Lemma distribute_movement_length (total steps : Z) :
  0 < steps →
  ∃ moves, distribute_movement total steps = Ok moves ∧
           length moves = Z.to_nat steps.
Proof.
  intros Hs. eexists. split; [by apply distribute_movement_closed|].
  pose proof (Z.mod_pos_bound total steps Hs).
  rewrite length_app, !length_replicate. lia.
Qed.

(** A tick on settings that the widgets have written.  It returns; it
    counts itself; when the activation predicate is false it does nothing
    else; when it is true it distributes both totals over
    [max 1 smoothing] sub-steps and makes one backend call per sub-step. *)
Lemma recoil_tick_typed (c : controls) (e : env) (self : t) :
  settings_of c ⊆ AppState.settings (app_state self) →
  (bloom_reduction c = true → 0 ≤ bloom_intensity c) →
  ∃ self' evs,
    recoil_tick e self = Ok self' ∧
    log self' = log self ++ evs ∧
    AppState.fps (app_state self') = AppState.fps (app_state self) + 1 ∧
    if activation_predicate c (GetAsyncKeyState e VK_LBUTTON <? 0)
                              (GetAsyncKeyState e VK_RBUTTON <? 0)
    then
      ∃ xs ys,
        distribute_movement (dx_total_of c e) (Z.max 1 (smoothing c)) = Ok xs ∧
        distribute_movement (recoil_strength c) (Z.max 1 (smoothing c)) = Ok ys ∧
        length xs = Z.to_nat (Z.max 1 (smoothing c)) ∧
        length ys = Z.to_nat (Z.max 1 (smoothing c)) ∧
        sends evs = zip xs ys ∧
        (hardware_selected (AppState.settings (app_state self)) self = false →
         evs = zip_with MouseEvent xs ys ∧
         mouse_controller self' = mouse_controller self)
    else evs = [] ∧ mouse_controller self' = mouse_controller self.
Proof.
  intros Hsub Hbloom.
  unfold recoil_tick, activation_predicate, AppState.get_full_config. simpl.
  set (config := AppState.settings (app_state self)) in *.
  set (self1 := {| app_state := AppState.tick_fps (app_state self);
                   mouse_controller := mouse_controller self;
                   log := log self |}).
  assert (∀ k v, settings_of c !! k = Some v → getitem config k = Ok v)
    as Hget by (intros k v; by apply typed_getitem).
  assert (is_recoil_active (GetAsyncKeyState e VK_LBUTTON <? 0)
            (GetAsyncKeyState e VK_RBUTTON <? 0) config
          = Ok (recoil_compensation c && (GetAsyncKeyState e VK_LBUTTON <? 0)
                && (negb (require_ads c) || (GetAsyncKeyState e VK_RBUTTON <? 0))))
    as ->.
  { unfold is_recoil_active.
    destruct (GetAsyncKeyState e VK_LBUTTON <? 0);
      [|by rewrite andb_false_r].
    rewrite (Hget "recoil_compensation"%string (VBool (recoil_compensation c)))
      by done.
    simpl. destruct (recoil_compensation c); [|done].
    rewrite (Hget "require_ads"%string (VBool (require_ads c))) by done.
    done. }
  simpl.
  destruct (recoil_compensation c && (GetAsyncKeyState e VK_LBUTTON <? 0)
            && (negb (require_ads c) || (GetAsyncKeyState e VK_RBUTTON <? 0))).
  2:{ exists self1, []. by rewrite app_nil_r. }
  unfold compensate.
  rewrite (Hget "smoothing"%string (VInt (smoothing c))) by done.
  cbn [mbind result_bind]. rewrite max1_int. cbn [mbind result_bind].
  rewrite (Hget "recoil_strength"%string (VInt (recoil_strength c))) by done.
  cbn [mbind result_bind].
  rewrite (Hget "bloom_reduction"%string (VBool (bloom_reduction c))) by done.
  cbn [mbind result_bind truthy].
  set (n := Z.max 1 (smoothing c)).
  assert (0 < n) as Hn by lia.
  destruct (distribute_movement_length (recoil_strength c) n Hn)
    as (ys & Hys & Hylen).
  destruct (distribute_movement_length (dx_total_of c e) n Hn)
    as (xs & Hxs & Hxlen).
  assert ((if bloom_reduction c
           then
             lo ← getitem config "bloom_intensity";
             lo0 ← as_int lo;
             hi ← getitem config "bloom_intensity";
             hi0 ← as_int hi;
             r ← randint e (- lo0) hi0; Ok (VInt r)
           else Ok (VInt 0)) = Ok (VInt (dx_total_of c e))) as ->.
  { unfold dx_total_of. destruct (bloom_reduction c); [|done].
    rewrite (Hget "bloom_intensity"%string (VInt (bloom_intensity c))) by done.
    simpl. unfold randint.
    specialize (Hbloom eq_refl).
    by destruct (Z.ltb_spec (bloom_intensity c) (- bloom_intensity c)); [lia|]. }
  cbn [mbind result_bind]. rewrite !distribute_value_int, Hys.
  cbn [mbind result_bind]. rewrite Hxs. cbn [mbind result_bind].
  destruct (substeps_run (hardware_selected config self1) xs ys (Z.to_nat n) self1)
    as (self' & evs & Hrun & Hlog & Hst & Hsends & _ & Hsw); [lia | lia | |].
  { unfold hardware_selected. simpl.
    destruct (mouse_controller self); [by eauto|].
    by rewrite andb_false_r. }
  rewrite !take_ge in Hsends, Hsw by lia.
  exists self', evs. unfold range. split; [done|]. split; [done|].
  split; [by rewrite Hst|].
  exists xs, ys. repeat (split; [done|]).
  intros Hsel. by destruct (Hsw Hsel).
Qed.

(** Once [running] is cleared the loop makes no further tick. *)
Lemma recoil_loop_stopped (es : list env) (self : t) :
  AppState.running (app_state self) = false → recoil_loop es self = Ok self.
Proof. intros Hstop. destruct es; simpl; [done|]. by rewrite Hstop. Qed.

(** While it runs, the loop is one tick followed by the loop. *)
Lemma recoil_loop_running (e : env) (es : list env) (self : t) :
  AppState.running (app_state self) = true →
  recoil_loop (e :: es) self = (self' ← recoil_tick e self; recoil_loop es self').
Proof. intros Hrun. simpl. by rewrite Hrun. Qed.

Lemma max1_at_least_1 (v : value) (n : Z) : max1 v = Ok n → 1 ≤ n.
Proof.
  unfold max1. destruct v as [b|z| |]; simpl; try done.
  - destruct b; simpl; by intros [= <-].
  - intros [= <-]. destruct (Z.ltb_spec 1 z); lia.
Qed.

(** C2. On settings written by the widgets (the jitter bound not
    negative when jitter is on), a tick returns, and it makes backend
    calls if and only if [recoil_compensation] is set, the primary button
    is pressed, and [require_ads] is unset or the secondary button is
    pressed: for all values of the four booleans. *)
Theorem activation_iff_predicate (c : controls) (e : env) (self : t) :
  settings_of c ⊆ AppState.settings (app_state self) →
  (bloom_reduction c = true → 0 ≤ bloom_intensity c) →
  ∃ self' evs,
    recoil_tick e self = Ok self' ∧
    log self' = log self ++ evs ∧
    (sends evs ≠ [] ↔
     recoil_compensation c && (GetAsyncKeyState e VK_LBUTTON <? 0)
     && (negb (require_ads c) || (GetAsyncKeyState e VK_RBUTTON <? 0)) = true).
Proof.
  intros Hsub Hbloom.
  destruct (recoil_tick_typed c e self Hsub Hbloom)
    as (self' & evs & Hrun & Hlog & _ & Hact).
  exists self', evs. split; [done|]. split; [done|].
  unfold activation_predicate in Hact.
  destruct (recoil_compensation c && (GetAsyncKeyState e VK_LBUTTON <? 0)
            && (negb (require_ads c) || (GetAsyncKeyState e VK_RBUTTON <? 0))).
  - destruct Hact as (xs & ys & _ & _ & Hxlen & Hylen & Hsends & _).
    split; [done|]. intros _. rewrite Hsends.
    destruct xs, ys; simpl in *; try done; lia.
  - destruct Hact as [-> _]. split; [done|]. done.
Qed.

Lemma activation_iff_predicate_witness :
  ∃ self' evs,
    recoil_tick both_held (started degenerate None) = Ok self' ∧
    log self' = log (started degenerate None) ++ evs ∧
    (sends evs ≠ [] ↔
     recoil_compensation degenerate
     && (GetAsyncKeyState both_held VK_LBUTTON <? 0)
     && (negb (require_ads degenerate)
         || (GetAsyncKeyState both_held VK_RBUTTON <? 0)) = true).
Proof.
  apply (activation_iff_predicate degenerate both_held (started degenerate None)).
  - reflexivity.
  - intros _. simpl. lia.
Defined.

(** C3. With [recoil_compensation] set, [require_ads] and
    [bloom_reduction] unset, [recoil_strength = 10], [smoothing = 5] and
    the primary button held, one tick makes exactly five backend calls,
    each with [dx = 0] and [dy = 2]: the [dx] add up to 0 and the [dy]
    to 10, and no [dy] is negative. *)
Theorem tick_ten_over_five (c : controls) (e : env) (self : t) :
  settings_of c ⊆ AppState.settings (app_state self) →
  recoil_compensation c = true →
  require_ads c = false →
  recoil_strength c = 10 →
  smoothing c = 5 →
  bloom_reduction c = false →
  GetAsyncKeyState e VK_LBUTTON < 0 →
  ∃ self' evs,
    recoil_tick e self = Ok self' ∧
    log self' = log self ++ evs ∧
    sends evs = [(0, 2); (0, 2); (0, 2); (0, 2); (0, 2)] ∧
    length (sends evs) = 5%nat ∧
    sum (sends evs).*1 = 0 ∧
    sum (sends evs).*2 = 10 ∧
    Forall (λ call, 0 ≤ call.2 ∧ call.2 = 2) (sends evs).
Proof.
  intros Hsub Hrc Hads Hrs Hsm Hbr Hlmb.
  destruct (recoil_tick_typed c e self Hsub) as
    (self' & evs & Hrun & Hlog & _ & Hact); [by rewrite Hbr|].
  unfold activation_predicate, dx_total_of in Hact.
  rewrite Hrc, Hads, Hrs, Hsm, Hbr in Hact.
  destruct (Z.ltb_spec (GetAsyncKeyState e VK_LBUTTON) 0); [|lia].
  simpl in Hact. destruct Hact as (xs & ys & Hxs & Hys & _ & _ & Hsends & _).
  vm_compute in Hxs, Hys. injection Hxs as <-. injection Hys as <-.
  exists self', evs. split; [done|]. split; [done|].
  rewrite Hsends. simpl. repeat split; try done.
  repeat constructor; simpl; lia.
Qed.

Lemma tick_ten_over_five_witness :
  ∃ self' evs,
    recoil_tick both_held (started scenario (Some unplugged)) = Ok self' ∧
    log self' = log (started scenario (Some unplugged)) ++ evs ∧
    sends evs = [(0, 2); (0, 2); (0, 2); (0, 2); (0, 2)] ∧
    length (sends evs) = 5%nat ∧
    sum (sends evs).*1 = 0 ∧
    sum (sends evs).*2 = 10 ∧
    Forall (λ call, 0 ≤ call.2 ∧ call.2 = 2) (sends evs).
Proof.
  apply (tick_ten_over_five scenario both_held
           (started scenario (Some unplugged)));
    first [reflexivity | simpl; lia].
Defined.

(** C9. Whatever [smoothing] the settings hold, zero and negative
    values included, an active tick works with [max 1 smoothing] >= 1
    steps: both totals are distributed over that many steps, both plans
    have that length, and that many backend calls are made.  The clamp
    itself never yields less than 1, for any kind of value. *)
Theorem step_count_at_least_one (c : controls) (e : env) (self : t) :
  settings_of c ⊆ AppState.settings (app_state self) →
  (bloom_reduction c = true → 0 ≤ bloom_intensity c) →
  activation_predicate c (GetAsyncKeyState e VK_LBUTTON <? 0)
                         (GetAsyncKeyState e VK_RBUTTON <? 0) = true →
  ∃ (steps : Z) (x_moves y_moves : list Z) self' evs,
    steps = Z.max 1 (smoothing c) ∧
    1 ≤ steps ∧
    distribute_movement (recoil_strength c) steps = Ok y_moves ∧
    distribute_movement (dx_total_of c e) steps = Ok x_moves ∧
    Z.of_nat (length y_moves) = steps ∧
    Z.of_nat (length x_moves) = steps ∧
    recoil_tick e self = Ok self' ∧
    log self' = log self ++ evs ∧
    sends evs = zip x_moves y_moves ∧
    Z.of_nat (length (sends evs)) = steps ∧
    (∀ v n, max1 v = Ok n → 1 ≤ n).
Proof.
  intros Hsub Hbloom Hactive.
  destruct (recoil_tick_typed c e self Hsub Hbloom)
    as (self' & evs & Hrun & Hlog & _ & Hact).
  rewrite Hactive in Hact.
  destruct Hact as (xs & ys & Hxs & Hys & Hxlen & Hylen & Hsends & _).
  exists (Z.max 1 (smoothing c)), xs, ys, self', evs.
  repeat (split; [done || lia|]).
  split; [|apply max1_at_least_1].
  rewrite Hsends, length_zip_with. lia.
Qed.

Lemma step_count_at_least_one_witness :
  ∃ (steps : Z) (x_moves y_moves : list Z) self' evs,
    steps = Z.max 1 (smoothing degenerate) ∧
    1 ≤ steps ∧
    distribute_movement (recoil_strength degenerate) steps = Ok y_moves ∧
    distribute_movement (dx_total_of degenerate both_held) steps = Ok x_moves ∧
    Z.of_nat (length y_moves) = steps ∧
    Z.of_nat (length x_moves) = steps ∧
    recoil_tick both_held (started degenerate (Some unplugged)) = Ok self' ∧
    log self' = log (started degenerate (Some unplugged)) ++ evs ∧
    sends evs = zip x_moves y_moves ∧
    Z.of_nat (length (sends evs)) = steps ∧
    (∀ v n, max1 v = Ok n → 1 ≤ n).
Proof.
  apply (step_count_at_least_one degenerate both_held
           (started degenerate (Some unplugged))).
  - reflexivity.
  - intros _. simpl. lia.
  - reflexivity.
Defined.

(** C5. When the write of a [move] on a connected controller raises,
    [move] answers [False] after that single call of [write], nothing is
    added to what the line has taken, and the controller is marked
    disconnected.  From then on the loop does not select the hardware:
    a following tick makes its backend calls through [mouse_event] only
    and leaves the controller alone. *)
Theorem write_failure_falls_back (x y : Z) (mc : MakcuController.t)
    (s : Serial.t) :
  MakcuController.connected mc = true →
  MakcuController.serial mc = Some s →
  (x, y) ≠ (0, 0) →
  Serial.is_open s && Serial.write_ok s (Serial.calls s) = false →
  ∃ mc' s',
    MakcuController.move x y mc = (Ok false, mc') ∧
    MakcuController.connected mc' = false ∧
    MakcuController.serial mc' = Some s' ∧
    Serial.calls s' = S (Serial.calls s) ∧
    Serial.written s' = Serial.written s ∧
    (∀ config self,
       mouse_controller self = Some mc' →
       hardware_selected config self = false) ∧
    (∀ (c : controls) (e : env) (self : t),
       mouse_controller self = Some mc' →
       settings_of c ⊆ AppState.settings (app_state self) →
       (bloom_reduction c = true → 0 ≤ bloom_intensity c) →
       ∃ self' evs,
         recoil_tick e self = Ok self' ∧
         log self' = log self ++ evs ∧
         Forall is_mouse_event evs ∧
         (activation_predicate c (GetAsyncKeyState e VK_LBUTTON <? 0)
                                 (GetAsyncKeyState e VK_RBUTTON <? 0) = true →
          evs ≠ []) ∧
         mouse_controller self' = Some mc').
Proof.
  intros Hconn Hser Hxy Hw.
  assert ((x =? 0) && (y =? 0) = false) as Hnz.
  { apply andb_false_iff.
    destruct (Z.eqb_spec x 0) as [->|]; [|by left].
    destruct (Z.eqb_spec y 0) as [->|]; [done | by right]. }
  eexists _, _. split; [by apply move_write_refused|]. simpl.
  split; [done|]. split; [done|]. split; [done|].
  split; [by rewrite Hw|].
  assert (∀ config self,
            mouse_controller self = Some
              {| MakcuController.serial :=
                   Some (Serial.write (MakcuController.MOVE_CMD x y) s).2;
                 MakcuController.connected := false;
                 MakcuController.port_name := MakcuController.port_name mc |} →
            hardware_selected config self = false) as Hsel.
  { intros config self Hmc. unfold hardware_selected. rewrite Hmc. simpl.
    apply andb_false_r. }
  split; [exact Hsel|].
  intros c e self Hmc Hsub Hbloom.
  destruct (recoil_tick_typed c e self Hsub Hbloom)
    as (self' & evs & Hrun & Hlog & _ & Hact).
  exists self', evs. split; [done|]. split; [done|].
  destruct (activation_predicate _ _ _).
  - destruct Hact as (xs & ys & _ & _ & Hxlen & Hylen & _ & Hsw).
    destruct (Hsw (Hsel _ _ Hmc)) as [-> ->].
    split; [|split; [|done]].
    + clear. revert ys. induction xs as [|dx xs IH]; intros [|dy ys]; simpl;
        try by constructor.
      constructor; [by exists dx, dy | apply IH].
    + intros _. destruct xs, ys; simpl in *; try done; lia.
  - destruct Hact as [-> ->]. split; [by constructor|]. done.
Qed.

Lemma write_failure_falls_back_witness :
  ∃ mc',
    MakcuController.move 0 2 unplugged = (Ok false, mc') ∧
    MakcuController.connected mc' = false ∧
    ∃ self' evs,
      recoil_tick both_held (started scenario (Some mc')) = Ok self' ∧
      log self' = evs ∧
      Forall is_mouse_event evs ∧
      evs ≠ [].
Proof.
  destruct (write_failure_falls_back 0 2 unplugged
              {| Serial.port := "COM3"; Serial.is_open := true;
                 Serial.baudrate := 4000000;
                 Serial.timeout := 1; Serial.write_timeout := 1;
                 Serial.written := []; Serial.calls := 0;
                 Serial.write_ok := λ _, false; Serial.incoming := [] |})
    as (mc' & s' & Hmove & Hconn & _ & _ & _ & _ & Hnext);
    [reflexivity | reflexivity | discriminate | reflexivity |].
  exists mc'. split; [exact Hmove|]. split; [exact Hconn|].
  destruct (Hnext scenario both_held (started scenario (Some mc')))
    as (self' & evs & Hrun & Hlog & Hall & Hne & _);
    [reflexivity | reflexivity | discriminate |].
  exists self', evs. split; [exact Hrun|]. split; [exact Hlog|].
  split; [exact Hall|]. apply Hne. reflexivity.
Defined.

End Loop.

(** * Further properties *)

(** ** The shape of a distribution *)

Section DistributeShape.

Lemma distribute_movement_entries (total steps : Z) :
  0 < steps →
  ∃ moves,
    distribute_movement total steps = Ok moves ∧
    ∀ (i : nat) (m : Z), moves !! i = Some m →
      Z.of_nat i < steps ∧
      m = (if Z.of_nat i <? total `mod` steps
           then total `div` steps + 1 else total `div` steps).
Proof.
  intros Hs. eexists. split; [by apply distribute_movement_closed|].
  pose proof (Z.mod_pos_bound total steps Hs) as Hr.
  intros i m Hi.
  assert (i < Z.to_nat steps)%nat as Hlt.
  { apply lookup_lt_Some in Hi.
    rewrite length_app, !length_replicate in Hi. lia. }
  split; [lia|].
  destruct (Z.ltb_spec (Z.of_nat i) (total `mod` steps)).
  - rewrite lookup_app_l in Hi by (rewrite length_replicate; lia).
    by apply lookup_replicate in Hi as [-> _].
  - rewrite lookup_app_r in Hi by (rewrite length_replicate; lia).
    by apply lookup_replicate in Hi as [-> _].
Qed.

(** The sub-moves never grow along the plan and any two of them differ
    by at most one. *)
Theorem distribute_movement_even (total steps : Z) :
  0 < steps →
  ∃ moves,
    distribute_movement total steps = Ok moves ∧
    ∀ (i j : nat) (a b : Z),
      (i ≤ j)%nat → moves !! i = Some a → moves !! j = Some b →
      b ≤ a ≤ b + 1.
Proof.
  intros Hs.
  destruct (distribute_movement_entries total steps Hs) as (moves & Hrun & Hent).
  exists moves. split; [done|].
  intros i j a b Hij Ha Hb.
  destruct (Hent i a Ha) as [_ ->]. destruct (Hent j b Hb) as [_ ->].
  destruct (Z.ltb_spec (Z.of_nat i) (total `mod` steps)),
    (Z.ltb_spec (Z.of_nat j) (total `mod` steps)); lia.
Qed.

Lemma distribute_movement_even_witness :
  ∃ moves,
    distribute_movement 11 4 = Ok moves ∧
    ∀ (i j : nat) (a b : Z),
      (i ≤ j)%nat → moves !! i = Some a → moves !! j = Some b →
      b ≤ a ≤ b + 1.
Proof. apply (distribute_movement_even 11 4). lia. Defined.

(** No sub-move goes against the total or beyond it: for a total that is
    not negative every sub-move lies between 0 and the total, and for a
    total that is not positive between the total and 0. *)
Theorem distribute_movement_direction (total steps : Z) :
  0 < steps →
  ∃ moves,
    distribute_movement total steps = Ok moves ∧
    (0 ≤ total → Forall (λ m, 0 ≤ m ≤ total) moves) ∧
    (total ≤ 0 → Forall (λ m, total ≤ m ≤ 0) moves).
Proof.
  intros Hs.
  destruct (distribute_movement_entries total steps Hs) as (moves & Hrun & Hent).
  exists moves. split; [done|].
  pose proof (Z.mod_pos_bound total steps Hs) as Hr.
  pose proof (Z.div_mod total steps ltac:(lia)) as Hdm.
  split; intros Ht; apply Forall_lookup; intros i m Hi;
    destruct (Hent i m Hi) as [_ ->];
    destruct (Z.ltb_spec (Z.of_nat i) (total `mod` steps)); nia.
Qed.

Lemma distribute_movement_direction_witness :
  ∃ moves,
    distribute_movement (-7) 3 = Ok moves ∧
    (0 ≤ -7 → Forall (λ m, 0 ≤ m ≤ -7) moves) ∧
    (-7 ≤ 0 → Forall (λ m, -7 ≤ m ≤ 0) moves).
Proof. apply (distribute_movement_direction (-7) 3). lia. Defined.

End DistributeShape.

(** ** More on the actuation loop *)

Section LoopMore.

Import CloudRecoil.

(** With the primary button up a tick reads no setting at all: on any
    settings dictionary, the empty one included, it returns and has only
    counted itself. *)
Theorem tick_button_up (e : env) (self : t) :
  0 ≤ GetAsyncKeyState e VK_LBUTTON →
  recoil_tick e self = Ok (counted self).
Proof.
  intros Hup. unfold recoil_tick, is_recoil_active.
  by destruct (Z.ltb_spec (GetAsyncKeyState e VK_LBUTTON) 0); [lia|].
Qed.

Lemma tick_button_up_witness :
  recoil_tick {| GetAsyncKeyState := λ _, 0; choice := λ a _, a |}
    {| app_state := AppState.init ∅; mouse_controller := None; log := [] |}
  = Ok {| app_state := AppState.tick_fps (AppState.init ∅);
          mouse_controller := None; log := [] |}.
Proof.
  apply (tick_button_up {| GetAsyncKeyState := λ _, 0; choice := λ a _, a |}
           {| app_state := AppState.init ∅; mouse_controller := None;
              log := [] |}).
  simpl. lia.
Defined.

(** With the primary button pressed the settings are read with
    [config[...]]: when [recoil_compensation] is missing the tick raises
    [KeyError], and as the loop has no handler the loop ends with it. *)
Theorem tick_missing_key (e : env) (es : list env) (self : t) :
  GetAsyncKeyState e VK_LBUTTON < 0 →
  AppState.settings (app_state self) !! "recoil_compensation"%string = None →
  AppState.running (app_state self) = true →
  recoil_tick e self = Raise (KeyError "recoil_compensation") ∧
  recoil_loop (e :: es) self = Raise (KeyError "recoil_compensation").
Proof.
  intros Hdown Hmiss Hrun.
  assert (recoil_tick e self = Raise (KeyError "recoil_compensation")) as Htick.
  { unfold recoil_tick, is_recoil_active, getitem, AppState.get_full_config.
    simpl. rewrite Hmiss.
    by destruct (Z.ltb_spec (GetAsyncKeyState e VK_LBUTTON) 0); [|lia]. }
  split; [done|]. simpl. by rewrite Hrun, Htick.
Qed.

Lemma tick_missing_key_witness :
  recoil_tick both_held
    {| app_state := AppState.init ∅; mouse_controller := None; log := [] |}
  = Raise (KeyError "recoil_compensation") ∧
  recoil_loop [both_held; both_held]
    {| app_state := AppState.init ∅; mouse_controller := None; log := [] |}
  = Raise (KeyError "recoil_compensation").
Proof.
  apply (tick_missing_key both_held [both_held]
           {| app_state := AppState.init ∅; mouse_controller := None;
              log := [] |}).
  - simpl. lia.
  - reflexivity.
  - reflexivity.
Defined.

(** An active tick on widget-written settings, opened up: the two plans
    and the sub-step loop over them. *)
Lemma recoil_tick_active (c : controls) (e : env) (self : t) :
  settings_of c ⊆ AppState.settings (app_state self) →
  (bloom_reduction c = true → 0 ≤ bloom_intensity c) →
  activation_predicate c (GetAsyncKeyState e VK_LBUTTON <? 0)
                         (GetAsyncKeyState e VK_RBUTTON <? 0) = true →
  ∃ xs ys,
    distribute_movement (dx_total_of c e) (Z.max 1 (smoothing c)) = Ok xs ∧
    distribute_movement (recoil_strength c) (Z.max 1 (smoothing c)) = Ok ys ∧
    length xs = Z.to_nat (Z.max 1 (smoothing c)) ∧
    length ys = Z.to_nat (Z.max 1 (smoothing c)) ∧
    recoil_tick e self
    = for_each
        (substep (use_makcu c
                  && match mouse_controller self with
                     | Some mc => MakcuController.connected mc
                     | None => false
                     end) xs ys)
        (seq 0 (length xs)) (counted self).
Proof.
  intros Hsub Hbloom Hactive.
  unfold activation_predicate in Hactive.
  apply andb_true_iff in Hactive as [Hactive Hads].
  apply andb_true_iff in Hactive as [Hrc Hlmb].
  unfold recoil_tick, AppState.get_full_config. simpl.
  set (config := AppState.settings (app_state self)) in *.
  assert (∀ k v, settings_of c !! k = Some v → getitem config k = Ok v)
    as Hget by (intros k v; by apply typed_getitem).
  unfold is_recoil_active. rewrite Hlmb.
  rewrite (Hget "recoil_compensation"%string (VBool (recoil_compensation c)))
    by done.
  cbn [mbind result_bind truthy]. rewrite Hrc.
  rewrite (Hget "require_ads"%string (VBool (require_ads c))) by done.
  cbn [mbind result_bind truthy]. rewrite Hads.
  unfold compensate.
  rewrite (Hget "smoothing"%string (VInt (smoothing c))) by done.
  cbn [mbind result_bind]. rewrite max1_int. cbn [mbind result_bind].
  rewrite (Hget "recoil_strength"%string (VInt (recoil_strength c))) by done.
  cbn [mbind result_bind].
  rewrite (Hget "bloom_reduction"%string (VBool (bloom_reduction c))) by done.
  cbn [mbind result_bind truthy].
  set (n := Z.max 1 (smoothing c)).
  assert (0 < n) as Hn by lia.
  destruct (distribute_movement_length (recoil_strength c) n Hn)
    as (ys & Hys & Hylen).
  destruct (distribute_movement_length (dx_total_of c e) n Hn)
    as (xs & Hxs & Hxlen).
  assert ((if bloom_reduction c
           then
             lo ← getitem config "bloom_intensity";
             lo0 ← as_int lo;
             hi ← getitem config "bloom_intensity";
             hi0 ← as_int hi;
             r ← randint e (- lo0) hi0; Ok (VInt r)
           else Ok (VInt 0)) = Ok (VInt (dx_total_of c e))) as ->.
  { unfold dx_total_of. destruct (bloom_reduction c); [|done].
    rewrite (Hget "bloom_intensity"%string (VInt (bloom_intensity c))) by done.
    simpl. unfold randint.
    specialize (Hbloom eq_refl).
    by destruct (Z.ltb_spec (bloom_intensity c) (- bloom_intensity c)); [lia|]. }
  cbn [mbind result_bind]. rewrite !distribute_value_int, Hys.
  cbn [mbind result_bind]. rewrite Hxs. cbn [mbind result_bind].
  exists xs, ys. repeat (split; [done|]).
  unfold hardware_selected, get, range. cbn [mouse_controller].
  assert (config !! "use_makcu"%string = Some (VBool (use_makcu c))) as ->.
  { by apply (lookup_weaken (settings_of c)). }
  by rewrite Hxlen.
Qed.



(** With jitter switched on and a negative jitter bound in the settings,
    an active tick raises [ValueError]: the random range is empty. *)
Theorem tick_negative_bloom (c : controls) (e : env) (self : t) :
  settings_of c ⊆ AppState.settings (app_state self) →
  activation_predicate c (GetAsyncKeyState e VK_LBUTTON <? 0)
                         (GetAsyncKeyState e VK_RBUTTON <? 0) = true →
  bloom_reduction c = true →
  bloom_intensity c < 0 →
  recoil_tick e self = Raise ValueError.
Proof.
  intros Hsub Hactive Hbr Hneg.
  unfold activation_predicate in Hactive.
  apply andb_true_iff in Hactive as [Hactive Hads].
  apply andb_true_iff in Hactive as [Hrc Hlmb].
  unfold recoil_tick, AppState.get_full_config. simpl.
  set (config := AppState.settings (app_state self)) in *.
  assert (∀ k v, settings_of c !! k = Some v → getitem config k = Ok v)
    as Hget by (intros k v; by apply typed_getitem).
  unfold is_recoil_active. rewrite Hlmb.
  rewrite (Hget "recoil_compensation"%string (VBool (recoil_compensation c)))
    by done.
  cbn [mbind result_bind truthy]. rewrite Hrc.
  rewrite (Hget "require_ads"%string (VBool (require_ads c))) by done.
  cbn [mbind result_bind truthy]. rewrite Hads.
  unfold compensate.
  rewrite (Hget "smoothing"%string (VInt (smoothing c))) by done.
  cbn [mbind result_bind]. rewrite max1_int. cbn [mbind result_bind].
  rewrite (Hget "recoil_strength"%string (VInt (recoil_strength c))) by done.
  cbn [mbind result_bind].
  rewrite (Hget "bloom_reduction"%string (VBool (bloom_reduction c))) by done.
  cbn [mbind result_bind truthy]. rewrite Hbr.
  rewrite (Hget "bloom_intensity"%string (VInt (bloom_intensity c))) by done.
  cbn [mbind result_bind as_int]. unfold randint.
  by destruct (Z.ltb_spec (bloom_intensity c) (- bloom_intensity c)); [|lia].
Qed.

Lemma tick_negative_bloom_witness :
  recoil_tick both_held (started reversed_jitter None) = Raise ValueError.
Proof.
  apply (tick_negative_bloom reversed_jitter both_held
           (started reversed_jitter None)).
  - reflexivity.
  - reflexivity.
  - reflexivity.
  - simpl. lia.
Defined.

Lemma distribute_movement_sum (total steps : Z) (moves : list Z) :
  0 < steps → distribute_movement total steps = Ok moves → sum moves = total.
Proof.
  intros Hs. rewrite distribute_movement_closed by done. intros [= <-].
  pose proof (Z.mod_pos_bound total steps Hs) as Hr.
  pose proof (Z.div_mod total steps ltac:(lia)) as Hdm.
  rewrite sum_distribution by lia. rewrite !Z2Nat.id by lia. lia.
Qed.

(** The backend calls of an active tick add up to the totals of the
    tick: horizontally to the jitter drawn for it (0 when the jitter is
    off, within the bound when the generator keeps to its bounds),
    vertically to [recoil_strength]. *)
Theorem tick_calls_add_up (c : controls) (e : env) (self : t) :
  settings_of c ⊆ AppState.settings (app_state self) →
  (bloom_reduction c = true → 0 ≤ bloom_intensity c) →
  activation_predicate c (GetAsyncKeyState e VK_LBUTTON <? 0)
                         (GetAsyncKeyState e VK_RBUTTON <? 0) = true →
  ∃ self' evs,
    recoil_tick e self = Ok self' ∧
    log self' = log self ++ evs ∧
    sum (sends evs).*1 = dx_total_of c e ∧
    sum (sends evs).*2 = recoil_strength c ∧
    (bloom_reduction c = false → sum (sends evs).*1 = 0) ∧
    (bloom_reduction c = true → in_bounds e →
     - bloom_intensity c ≤ sum (sends evs).*1 ≤ bloom_intensity c).
Proof.
  intros Hsub Hbloom Hactive.
  destruct (recoil_tick_typed c e self Hsub Hbloom)
    as (self' & evs & Hrun & Hlog & _ & Hact).
  rewrite Hactive in Hact.
  destruct Hact as (xs & ys & Hxs & Hys & Hxlen & Hylen & Hsends & _).
  exists self', evs. split; [done|]. split; [done|].
  rewrite Hsends, fst_zip, snd_zip by lia.
  assert (0 < Z.max 1 (smoothing c)) as Hn by lia.
  rewrite (distribute_movement_sum _ _ _ Hn Hxs).
  rewrite (distribute_movement_sum _ _ _ Hn Hys).
  split; [done|]. split; [done|]. unfold dx_total_of.
  split; [by intros ->|].
  intros Hbr Hfair. rewrite Hbr. apply Hfair. specialize (Hbloom Hbr). lia.
Qed.

Lemma tick_calls_add_up_witness :
  ∃ self' evs,
    recoil_tick both_held (started degenerate None) = Ok self' ∧
    log self' = log (started degenerate None) ++ evs ∧
    sum (sends evs).*1 = dx_total_of degenerate both_held ∧
    sum (sends evs).*2 = recoil_strength degenerate ∧
    (bloom_reduction degenerate = false → sum (sends evs).*1 = 0) ∧
    (bloom_reduction degenerate = true → in_bounds both_held →
     - bloom_intensity degenerate ≤ sum (sends evs).*1
       ≤ bloom_intensity degenerate).
Proof.
  apply (tick_calls_add_up degenerate both_held (started degenerate None)).
  - reflexivity.
  - intros _. simpl. lia.
  - reflexivity.
Defined.

Lemma substeps_frame (use_hw : bool) (xs ys : list Z) (l : list nat)
    (self self' : t) :
  for_each (substep use_hw xs ys) l self = Ok self' →
  app_state self' = app_state self ∧
  (∃ evs, log self' = log self ++ evs) ∧
  (is_Some (mouse_controller self') ↔ is_Some (mouse_controller self)).
Proof.
  revert self. induction l as [|i l IH]; intros self; simpl.
  - intros [= <-]. split; [done|]. split; [|done]. exists []. by rewrite app_nil_r.
  - unfold mbind, result_bind.
    destruct (substep use_hw xs ys self i) as [s1|] eqn:Hstep; [|done].
    intros Hrest. destruct (IH _ Hrest) as (Hst & [evs Hlog] & Hmc).
    assert (app_state s1 = app_state self ∧
            (∃ evs1, log s1 = log self ++ evs1) ∧
            (is_Some (mouse_controller s1) ↔ is_Some (mouse_controller self)))
      as (Hst1 & [evs1 Hlog1] & Hmc1).
    { unfold substep, mbind, result_bind in Hstep.
      destruct (index xs i); [|done]. destruct (index ys i); [|done].
      destruct use_hw.
      - destruct (mouse_controller self) as [mc|] eqn:Hmcs; [|done].
        destruct (MakcuController.move a a0 mc) as [[sent|] mc']; [|done].
        injection Hstep as <-. simpl. split; [done|]. split; [by eauto|].
        split; by eauto.
      - injection Hstep as <-. simpl. split; [done|]. split; [by eauto|]. done. }
    split; [by rewrite Hst|]. split; [|by rewrite Hmc].
    exists (evs1 ++ evs). by rewrite Hlog, Hlog1, app_assoc.
Qed.

Lemma recoil_tick_frame (e : env) (self self' : t) :
  recoil_tick e self = Ok self' →
  app_state self' = AppState.tick_fps (app_state self) ∧
  (∃ evs, log self' = log self ++ evs) ∧
  (is_Some (mouse_controller self') ↔ is_Some (mouse_controller self)).
Proof.
  unfold recoil_tick, mbind, result_bind.
  destruct (is_recoil_active _ _ _) as [[|]|]; [| |done].
  - unfold compensate, mbind, result_bind.
    repeat (case_match; try done).
    all: intros Hrun; by apply substeps_frame in Hrun.
  - intros [= <-]. simpl. split; [done|]. split; [|done].
    exists []. by rewrite app_nil_r.
Qed.

(** Whatever the settings hold, a tick that returns has changed the
    shared state only by counting itself, has only added to the log, and
    has neither made nor dropped the controller. *)
Theorem tick_frame (e : env) (self self' : t) :
  recoil_tick e self = Ok self' →
  app_state self' = AppState.tick_fps (app_state self) ∧
  (∃ evs, log self' = log self ++ evs) ∧
  (is_Some (mouse_controller self') ↔ is_Some (mouse_controller self)).
Proof. apply recoil_tick_frame. Qed.

Lemma tick_frame_witness :
  app_state (counted (started scenario None))
  = AppState.tick_fps (app_state (started scenario None)) ∧
  (∃ evs, log (counted (started scenario None))
          = log (started scenario None) ++ evs) ∧
  (is_Some (mouse_controller (counted (started scenario None)))
   ↔ is_Some (mouse_controller (started scenario None))).
Proof.
  apply (tick_frame {| GetAsyncKeyState := λ _, 0; choice := λ a _, a |}
           (started scenario None) (counted (started scenario None))).
  reflexivity.
Defined.

(** Once the widgets have written the settings (the jitter slider does
    not go below 0), the loop runs any number of ticks without raising,
    whatever the settings held before; it counts every tick and leaves
    the settings and the running flag alone. *)
Theorem loop_runs_on_widget_settings (c : controls) (es : list env)
    (self0 : t) :
  0 ≤ bloom_intensity c →
  AppState.running (app_state self0) = true →
  ∃ self',
    recoil_loop es (update_settings c self0) = Ok self' ∧
    AppState.settings (app_state self')
    = AppState.settings (app_state (update_settings c self0)) ∧
    AppState.fps (app_state self')
    = AppState.fps (app_state self0) + Z.of_nat (length es) ∧
    AppState.running (app_state self') = true.
Proof.
  intros Hbi Hrunning.
  assert (∀ es self,
            settings_of c ⊆ AppState.settings (app_state self) →
            AppState.running (app_state self) = true →
            ∃ self',
              recoil_loop es self = Ok self' ∧
              AppState.settings (app_state self')
              = AppState.settings (app_state self) ∧
              AppState.fps (app_state self')
              = AppState.fps (app_state self) + Z.of_nat (length es) ∧
              AppState.running (app_state self') = true) as Hloop.
  { clear self0 Hrunning es.
    induction es as [|e es IH]; intros self Hsub Hrun.
    - exists self. simpl. repeat split; first [done | lia].
    - destruct (recoil_tick_typed c e self Hsub (λ _, Hbi))
        as (s1 & evs & Htick & _).
      destruct (recoil_tick_frame e self s1 Htick) as (Hst & _).
      destruct (IH s1) as (s2 & Hrest & Hset & Hfps & Hrun2).
      { by rewrite Hst. }
      { by rewrite Hst. }
      exists s2. simpl. rewrite Hrun, Htick. simpl.
      split; [done|]. rewrite Hset, Hfps, Hst. simpl.
      split; [done|]. split; [lia|done]. }
  destruct (Hloop es (update_settings c self0))
    as (self' & Hrun & Hset & Hfps & Hstill);
    [apply update_settings_typed | done |].
  by exists self'.
Qed.

Lemma loop_runs_on_widget_settings_witness :
  ∃ self',
    recoil_loop [both_held; both_held; both_held]
      (update_settings scenario (started reversed_jitter None)) = Ok self' ∧
    AppState.settings (app_state self')
    = AppState.settings
        (app_state (update_settings scenario (started reversed_jitter None))) ∧
    AppState.fps (app_state self')
    = AppState.fps (app_state (started reversed_jitter None))
      + Z.of_nat (length [both_held; both_held; both_held]) ∧
    AppState.running (app_state self') = true.
Proof.
  apply (loop_runs_on_widget_settings scenario
           [both_held; both_held; both_held] (started reversed_jitter None)).
  - simpl. lia.
  - reflexivity.
Defined.

End LoopMore.

(** ** Ticks that go through the hardware *)

Section HardwareTicks.

Import CloudRecoil.

Lemma move_accepted (x y : Z) (mc : MakcuController.t) (s : Serial.t) :
  MakcuController.connected mc = true →
  MakcuController.serial mc = Some s →
  line_accepts s →
  ∃ mc' s',
    MakcuController.move x y mc = (Ok true, mc') ∧
    MakcuController.connected mc' = true ∧
    MakcuController.port_name mc' = MakcuController.port_name mc ∧
    MakcuController.serial mc' = Some s' ∧
    line_accepts s' ∧
    Serial.calls s' = (Serial.calls s + length (List.filter nonzero [(x, y)]))%nat ∧
    Serial.written s'
    = Serial.written s
      ++ map (λ call, MakcuController.MOVE_CMD call.1 call.2)
             (List.filter nonzero [(x, y)]).
Proof.
  intros Hconn Hser [Hopen Hok]. unfold MakcuController.move, nonzero.
  rewrite Hconn, Hser. simpl.
  destruct ((x =? 0) && (y =? 0)); simpl.
  - exists mc, s. rewrite app_nil_r, Nat.add_0_r. repeat (split; [done|]); done.
  - unfold MakcuController.try_except, MakcuController.on_serial,
      mbind, MakcuController.M_bind, mret, MakcuController.M_ret.
    rewrite Hser. simpl. rewrite Hopen, Hok. simpl.
    eexists _, _. repeat (split; [done || (simpl; lia)|]); done.
Qed.

Lemma move_refused (x y : Z) (mc : MakcuController.t) (s : Serial.t) :
  MakcuController.serial mc = Some s →
  line_refuses s →
  ∃ sent mc' s',
    MakcuController.move x y mc = (Ok sent, mc') ∧
    MakcuController.serial mc' = Some s' ∧
    line_refuses s' ∧
    Serial.written s' = Serial.written s ∧
    (sent = true → nonzero (x, y) = false) ∧
    (MakcuController.connected mc = false →
     MakcuController.connected mc' = false ∧ s' = s) ∧
    (nonzero (x, y) = false →
     MakcuController.connected mc' = MakcuController.connected mc ∧ s' = s) ∧
    (MakcuController.connected mc = true → nonzero (x, y) = true →
     MakcuController.connected mc' = false ∧
     Serial.calls s' = S (Serial.calls s)).
Proof.
  intros Hser Hno. unfold MakcuController.move, nonzero.
  rewrite Hser. simpl.
  destruct (MakcuController.connected mc) eqn:Hconn; simpl.
  2:{ exists false, mc, s. rewrite Hconn. repeat (split; [done|]); done. }
  destruct ((x =? 0) && (y =? 0)); simpl.
  - exists true, mc, s. repeat (split; [done|]); done.
  - unfold MakcuController.try_except, MakcuController.on_serial,
      MakcuController.set_connected,
      mbind, MakcuController.M_bind, mret, MakcuController.M_ret.
    rewrite Hser. simpl. rewrite Hno, andb_false_r. simpl.
    eexists false, _, _. repeat (split; [done|]); done.
Qed.

Lemma hardware_substeps_accepted (xs ys : list Z) (n : nat) (self : t)
    (mc : MakcuController.t) (s : Serial.t) :
  (n ≤ length xs)%nat → (n ≤ length ys)%nat →
  mouse_controller self = Some mc →
  MakcuController.connected mc = true →
  MakcuController.serial mc = Some s →
  line_accepts s →
  ∃ self' mc' s',
    for_each (substep true xs ys) (seq 0 n) self = Ok self' ∧
    app_state self' = app_state self ∧
    log self'
    = log self ++ flat_map hardware_step (zip (take n xs) (take n ys)) ∧
    mouse_controller self' = Some mc' ∧
    MakcuController.connected mc' = true ∧
    MakcuController.port_name mc' = MakcuController.port_name mc ∧
    MakcuController.serial mc' = Some s' ∧
    line_accepts s' ∧
    Serial.written s'
    = Serial.written s
      ++ map (λ call, MakcuController.MOVE_CMD call.1 call.2)
             (List.filter nonzero (zip (take n xs) (take n ys))).
Proof.
  intros Hx Hy Hmc Hconn Hser Hacc. induction n as [|n IH].
  - exists self, mc, s. simpl. rewrite !app_nil_r. repeat (split; [done|]); done.
  - destruct IH as (s1 & mc1 & p1 & Hrun & Hst & Hlog & Hmc1 & Hconn1 & Hpn
                    & Hser1 & Hacc1 & Hwr); [lia | lia |].
    rewrite seq_S, for_each_app, Hrun. simpl.
    destruct (lookup_lt_is_Some_2 xs n ltac:(lia)) as [dx Hdx].
    destruct (lookup_lt_is_Some_2 ys n ltac:(lia)) as [dy Hdy].
    rewrite (take_S_r xs n dx), (take_S_r ys n dy) by done.
    rewrite zip_with_app by (rewrite !length_take; lia).
    unfold mbind, result_bind, substep, index. rewrite Hdx, Hdy, Hmc1. simpl.
    destruct (move_accepted dx dy mc1 p1 Hconn1 Hser1 Hacc1)
      as (mc2 & p2 & Hmove & Hconn2 & Hpn2 & Hser2 & Hacc2 & _ & Hwr2).
    rewrite Hmove. eexists _, mc2, p2. simpl.
    split; [done|]. split; [done|].
    split.
    { rewrite Hlog, List.flat_map_app. simpl. by rewrite <- app_assoc. }
    split; [done|]. split; [done|]. split; [by rewrite Hpn2|].
    split; [done|]. split; [done|].
    rewrite Hwr2, Hwr, List.filter_app, map_app. by rewrite <- app_assoc.
Qed.

(** A tick sent through a connected controller whose line takes every
    write: each sub-step is a call of [move] followed by an activity
    pulse, the zero sub-moves included; the line receives one command
    for every sub-move that is not [(0, 0)], in order, and nothing for
    the others; no [mouse_event] is made and the controller stays
    connected. *)
Theorem hardware_tick (c : controls) (e : env) (self : t)
    (mc : MakcuController.t) (s : Serial.t) :
  settings_of c ⊆ AppState.settings (app_state self) →
  (bloom_reduction c = true → 0 ≤ bloom_intensity c) →
  activation_predicate c (GetAsyncKeyState e VK_LBUTTON <? 0)
                         (GetAsyncKeyState e VK_RBUTTON <? 0) = true →
  use_makcu c = true →
  mouse_controller self = Some mc →
  MakcuController.connected mc = true →
  MakcuController.serial mc = Some s →
  line_accepts s →
  ∃ xs ys self' mc' s',
    distribute_movement (dx_total_of c e) (Z.max 1 (smoothing c)) = Ok xs ∧
    distribute_movement (recoil_strength c) (Z.max 1 (smoothing c)) = Ok ys ∧
    recoil_tick e self = Ok self' ∧
    log self' = log self ++ flat_map hardware_step (zip xs ys) ∧
    mouse_controller self' = Some mc' ∧
    MakcuController.connected mc' = true ∧
    MakcuController.serial mc' = Some s' ∧
    Serial.written s'
    = Serial.written s
      ++ map (λ call, MakcuController.MOVE_CMD call.1 call.2)
             (List.filter nonzero (zip xs ys)).
Proof.
  intros Hsub Hbloom Hactive Hhw Hmc Hconn Hser Hacc.
  destruct (recoil_tick_active c e self Hsub Hbloom Hactive)
    as (xs & ys & Hxs & Hys & Hxlen & Hylen & Htick).
  rewrite Hhw, Hmc, Hconn in Htick. simpl in Htick.
  destruct (hardware_substeps_accepted xs ys (length xs) (counted self) mc s)
    as (self' & mc' & s' & Hrun & _ & Hlog & Hmc' & Hconn' & _ & Hser' & _ & Hwr);
    [lia | lia | done | done | done | done |].
  rewrite !take_ge in Hlog, Hwr by lia.
  exists xs, ys, self', mc', s'. rewrite Htick.
  repeat (split; [done|]); done.
Qed.

Lemma hardware_tick_witness :
  ∃ xs ys self' mc' s',
    distribute_movement (dx_total_of through_hardware both_held)
      (Z.max 1 (smoothing through_hardware)) = Ok xs ∧
    distribute_movement (recoil_strength through_hardware)
      (Z.max 1 (smoothing through_hardware)) = Ok ys ∧
    recoil_tick both_held
      (started through_hardware (Some (connected_on good_port))) = Ok self' ∧
    log self'
    = log (started through_hardware (Some (connected_on good_port)))
      ++ flat_map hardware_step (zip xs ys) ∧
    mouse_controller self' = Some mc' ∧
    MakcuController.connected mc' = true ∧
    MakcuController.serial mc' = Some s' ∧
    Serial.written s'
    = Serial.written good_port
      ++ map (λ call, MakcuController.MOVE_CMD call.1 call.2)
             (List.filter nonzero (zip xs ys)).
Proof.
  apply (hardware_tick through_hardware both_held
           (started through_hardware (Some (connected_on good_port)))
           (connected_on good_port) good_port).
  - reflexivity.
  - discriminate.
  - reflexivity.
  - reflexivity.
  - reflexivity.
  - reflexivity.
  - reflexivity.
  - split; [reflexivity | intros k; reflexivity].
Defined.

Lemma hardware_substeps_refused (xs ys : list Z) (n : nat) (self : t)
    (mc : MakcuController.t) (s : Serial.t) :
  (n ≤ length xs)%nat → (n ≤ length ys)%nat →
  mouse_controller self = Some mc →
  MakcuController.connected mc = true →
  MakcuController.serial mc = Some s →
  line_refuses s →
  ∃ self' evs mc' s',
    for_each (substep true xs ys) (seq 0 n) self = Ok self' ∧
    log self' = log self ++ evs ∧
    Forall (λ ev, ¬ is_mouse_event ev) evs ∧
    mouse_controller self' = Some mc' ∧
    MakcuController.serial mc' = Some s' ∧
    line_refuses s' ∧
    Serial.written s' = Serial.written s ∧
    ((MakcuController.connected mc' = true ∧ s' = s ∧
      Forall (λ call, nonzero call = false) (zip (take n xs) (take n ys)))
     ∨ (MakcuController.connected mc' = false ∧
        Serial.calls s' = S (Serial.calls s))).
Proof.
  intros Hx Hy Hmc Hconn Hser Hno. induction n as [|n IH].
  - exists self, [], mc, s. simpl. rewrite app_nil_r.
    repeat (split; [done|]). left. by repeat split.
  - destruct IH as (s1 & evs & mc1 & p1 & Hrun & Hlog & Hev & Hmc1 & Hser1
                    & Hno1 & Hwr & Hcase); [lia | lia |].
    rewrite seq_S, for_each_app, Hrun. simpl.
    destruct (lookup_lt_is_Some_2 xs n ltac:(lia)) as [dx Hdx].
    destruct (lookup_lt_is_Some_2 ys n ltac:(lia)) as [dy Hdy].
    rewrite (take_S_r xs n dx), (take_S_r ys n dy) by done.
    rewrite zip_with_app by (rewrite !length_take; lia).
    unfold mbind, result_bind, substep, index. rewrite Hdx, Hdy, Hmc1. simpl.
    destruct (move_refused dx dy mc1 p1 Hser1 Hno1)
      as (sent & mc2 & p2 & Hmove & Hser2 & Hno2 & Hwr2 & _ & Hoff & Hzero & Hfail).
    rewrite Hmove.
    eexists _, (evs ++ MakcuMove dx dy :: (if sent then [MakcuActivity] else [])),
      mc2, p2. simpl.
    split; [done|]. split; [by rewrite Hlog, <- app_assoc|].
    split.
    { apply Forall_app. split; [done|].
      destruct sent; repeat constructor; by intros (? & ? & ?). }
    split; [done|]. split; [done|]. split; [done|].
    split; [by rewrite Hwr2|].
    destruct Hcase as [(Hc1 & -> & Hall) | (Hc1 & Hcalls)].
    + destruct (nonzero (dx, dy)) eqn:Hnz.
      * right. by apply Hfail.
      * left. destruct (Hzero eq_refl) as [-> ->].
        split; [done|]. split; [done|].
        apply Forall_app. split; [done|]. by constructor.
    + right. destruct (Hoff Hc1) as [-> ->]. done.
Qed.

Lemma all_zero_sum (xs ys : list Z) :
  length xs = length ys →
  Forall (λ call, nonzero call = false) (zip xs ys) → sum ys = 0.
Proof.
  revert ys. induction xs as [|x xs IH]; intros [|y ys]; simpl; try done.
  intros [= Hlen] Hall. apply Forall_cons in Hall as [Hz Hall].
  unfold nonzero in Hz. simpl in Hz.
  apply negb_false_iff, andb_true_iff in Hz as [_ Hy].
  apply Z.eqb_eq in Hy. rewrite (IH ys Hlen Hall). lia.
Qed.

(** A tick sent through a connected controller whose line refuses every
    write: the tick still returns, but its movement is lost.  One write
    is attempted and refused, the controller is then disconnected, and
    the remaining sub-steps are neither written nor handed to
    [mouse_event]. *)
Theorem hardware_tick_on_dead_line (c : controls) (e : env) (self : t)
    (mc : MakcuController.t) (s : Serial.t) :
  settings_of c ⊆ AppState.settings (app_state self) →
  (bloom_reduction c = true → 0 ≤ bloom_intensity c) →
  activation_predicate c (GetAsyncKeyState e VK_LBUTTON <? 0)
                         (GetAsyncKeyState e VK_RBUTTON <? 0) = true →
  use_makcu c = true →
  recoil_strength c ≠ 0 →
  mouse_controller self = Some mc →
  MakcuController.connected mc = true →
  MakcuController.serial mc = Some s →
  line_refuses s →
  ∃ self' evs mc' s',
    recoil_tick e self = Ok self' ∧
    log self' = log self ++ evs ∧
    Forall (λ ev, ¬ is_mouse_event ev) evs ∧
    mouse_controller self' = Some mc' ∧
    MakcuController.connected mc' = false ∧
    MakcuController.serial mc' = Some s' ∧
    Serial.written s' = Serial.written s ∧
    Serial.calls s' = S (Serial.calls s).
Proof.
  intros Hsub Hbloom Hactive Hhw Hrs Hmc Hconn Hser Hno.
  destruct (recoil_tick_active c e self Hsub Hbloom Hactive)
    as (xs & ys & Hxs & Hys & Hxlen & Hylen & Htick).
  rewrite Hhw, Hmc, Hconn in Htick. simpl in Htick.
  destruct (hardware_substeps_refused xs ys (length xs) (counted self) mc s)
    as (self' & evs & mc' & s' & Hrun & Hlog & Hev & Hmc' & Hser' & _ & Hwr
        & Hcase); [lia | lia | done | done | done | done |].
  exists self', evs, mc', s'. rewrite Htick.
  repeat (split; [done|]).
  destruct Hcase as [(_ & _ & Hall) | (Hoff & Hcalls)].
  - exfalso. apply Hrs. rewrite !take_ge in Hall by lia.
    assert (0 < Z.max 1 (smoothing c)) as Hn by lia.
    rewrite <- (distribute_movement_sum _ _ _ Hn Hys).
    apply (all_zero_sum xs ys); [lia | done].
  - done.
Qed.

Lemma hardware_tick_on_dead_line_witness :
  ∃ self' evs mc' s',
    recoil_tick both_held
      (started through_hardware (Some (connected_on dead_port))) = Ok self' ∧
    log self'
    = log (started through_hardware (Some (connected_on dead_port))) ++ evs ∧
    Forall (λ ev, ¬ is_mouse_event ev) evs ∧
    mouse_controller self' = Some mc' ∧
    MakcuController.connected mc' = false ∧
    MakcuController.serial mc' = Some s' ∧
    Serial.written s' = Serial.written dead_port ∧
    Serial.calls s' = S (Serial.calls dead_port).
Proof.
  apply (hardware_tick_on_dead_line through_hardware both_held
           (started through_hardware (Some (connected_on dead_port)))
           (connected_on dead_port) dead_port).
  - reflexivity.
  - discriminate.
  - reflexivity.
  - reflexivity.
  - discriminate.
  - reflexivity.
  - reflexivity.
  - reflexivity.
  - intros k. reflexivity.
Defined.

End HardwareTicks.

(** ** More on the controller *)

Section MakcuMore.

Import MakcuController.

Ltac run_M' :=
  unfold try_except, close, close_if_open, on_serial_, on_serial, lift,
    set_serial, set_connected, set_port_name, raise,
    mbind, M_bind, mret, M_ret; simpl.

Lemma close_spec (self : t) :
  ∃ self',
    close self = (Ok (), self') ∧
    connected self' = false ∧
    port_name self' = None ∧
    port_released self' ∧
    close self' = (Ok (), self') ∧
    ∀ x y, move x y self' = (Ok false, self').
Proof.
  unfold port_released, move. run_M'.
  destruct (serial self) as [s|] eqn:Hs; [destruct (Serial.is_open s) eqn:Ho|];
    simpl; rewrite ?Hs; simpl; rewrite ?Ho; eexists;
    (split; [reflexivity|]); simpl; rewrite ?Hs; simpl; rewrite ?Ho; simpl;
    repeat (split; [done|]); done.
Qed.

(** [close] never raises; it leaves the controller disconnected, without
    a port name and with its port closed; closing again changes nothing,
    and a [move] after it is refused and changes nothing either. *)
Theorem close_resets (self : t) :
  ∃ self',
    close self = (Ok (), self') ∧
    connected self' = false ∧
    port_name self' = None ∧
    port_released self' ∧
    close self' = (Ok (), self') ∧
    ∀ x y, move x y self' = (Ok false, self').
Proof. apply close_spec. Qed.

(** What a candidate that is accepted leaves behind. *)
Lemma try_candidate_accepted (u : Unicode.db) (h : host)
    (c : string * (string * profile)) (self : t) :
  accepted u h c = true →
  ∃ self' s',
    try_candidate u h c self = (Ok true, self') ∧
    connected self' = true ∧
    port_name self' = Some c.1 ∧
    serial self' = Some s' ∧
    Serial.port s' = c.1 ∧
    Serial.is_open s' = true ∧
    Serial.baudrate s' = BAUDRATE_HIGH c.2.2 ∧
    Serial.timeout s' = 1 ∧
    Serial.write_timeout s' = 1 ∧
    Serial.written s' = connection_writes c.2.2.
Proof.
  destruct c as [device [name p]].
  unfold try_candidate, attempt, _finalize_connection, _read_response,
    accepted, answers, finalizes, response, connection_writes, Serial.open.
  simpl. set (l := line_of h device name).
  intros Hacc.
  apply andb_true_iff in Hacc as [Hans Hfin].
  apply andb_true_iff in Hans as [Hans Hkw].
  apply andb_true_iff in Hans as [Hopen Hw0].
  apply andb_true_iff in Hfin as [Hseq Hcmd].
  rewrite Hopen. run_M'. rewrite Hw0. simpl.
  destruct (drain (Serial.line_incoming l)) as [lines unread]; simpl in *.
  rewrite Hkw. simpl.
  destruct (nonempty (INIT_SEQUENCE p)); simpl;
    [rewrite Hseq; simpl|];
    destruct (Z.eqb_spec (BAUDRATE_HIGH p) BAUDRATE_DEFAULT) as [Hb|Hb]; simpl;
    destruct (nonempty (INIT_COMMAND p)); simpl;
    rewrite ?Hcmd; simpl;
    eexists _, _; repeat (split; [done|]); done.
Qed.

(** Candidates that are not accepted are passed over. *)
Lemma search_skips (u : Unicode.db) (h : host)
    (pre rest : list (string * (string * profile))) (self : t) :
  Forall (λ c, accepted u h c = false) pre →
  ∃ s0, search u h (pre ++ rest) self = search u h rest s0.
Proof.
  revert self. induction pre as [|a pre IH]; intros self Hall.
  - by exists self.
  - apply Forall_cons in Hall as [Ha Hall].
    destruct (try_candidate_spec u h a self) as (s1 & Htry & _).
    destruct (IH s1 Hall) as [s0 Hs0]. exists s0.
    cbn [app search]. unfold mbind, M_bind. by rewrite Htry, Ha.
Qed.

(** [connect] settles on the first usable pair of the enumeration, the
    ports taken in the order in which they are listed and, for each
    port, the profiles in the order of the catalogue: when no earlier
    port is usable with any profile, and this port with no earlier
    profile, [connect] returns [True] with the controller connected
    under this port's name, on an open port set to the profile's high
    baud rate and to the short time-outs, the port having received the
    handshake command, the initialising sequence and the initialising
    command, in this order, those that are empty left out. *)
Theorem connect_first_accepted (u : Unicode.db) (h : host) (self : t)
    (ports_before ports_after : list string) (device : string)
    (profiles_before profiles_after : list (string * profile))
    (name : string) (p : profile) :
  comports h = ports_before ++ device :: ports_after →
  DEVICE_PROFILES = profiles_before ++ (name, p) :: profiles_after →
  (∀ d n q, d ∈ ports_before → (n, q) ∈ DEVICE_PROFILES →
            ¬ usable u h d n q) →
  (∀ n q, (n, q) ∈ profiles_before → ¬ usable u h device n q) →
  usable u h device name p →
  ∃ self' s',
    connect u true h self = (Ok true, self') ∧
    connected self' = true ∧
    port_name self' = Some device ∧
    serial self' = Some s' ∧
    Serial.port s' = device ∧
    Serial.is_open s' = true ∧
    Serial.baudrate s' = BAUDRATE_HIGH p ∧
    Serial.timeout s' = 1 ∧
    Serial.write_timeout s' = 1 ∧
    Serial.written s' = connection_writes p.
Proof.
  intros Hports Hprofiles Hearlier Hsame Huse.
  assert (∃ pre post,
            candidates h = pre ++ (device, (name, p)) :: post ∧
            Forall (λ c, accepted u h c = false) pre)
    as (pre & post & Hcands & Hpre).
  { exists (flat_map (λ d, map (λ np, (d, np)) DEVICE_PROFILES) ports_before
            ++ map (λ np, (device, np)) profiles_before),
           (map (λ np, (device, np)) profiles_after
            ++ flat_map (λ d, map (λ np, (d, np)) DEVICE_PROFILES) ports_after).
    split.
    - assert (map (λ np, (device, np)) DEVICE_PROFILES
              = map (λ np, (device, np)) profiles_before
                ++ (device, (name, p))
                   :: map (λ np, (device, np)) profiles_after) as Hmid.
      { rewrite Hprofiles. by rewrite map_app. }
      unfold candidates. rewrite Hports, List.flat_map_app.
      cbn [flat_map]. rewrite Hmid.
      by rewrite <- !app_assoc.
    - apply Forall_app. split; apply Forall_forall; intros [d [n q]] Hc;
        apply not_true_iff_false; intros Hacc;
        apply accepted_usable in Hacc; apply list_elem_of_In in Hc.
      + apply in_flat_map in Hc as (d' & Hd' & Hin).
        apply in_map_iff in Hin as (np & Heq & Hnp). injection Heq as -> ->.
        apply (Hearlier d n q); [by apply list_elem_of_In | | done].
        by apply list_elem_of_In.
      + apply in_map_iff in Hc as (np & Heq & Hnp). injection Heq as -> ->.
        apply (Hsame n q); [by apply list_elem_of_In | done]. }
  unfold connect. simpl.
  destruct (close_spec self) as (s0 & Hclose & _).
  unfold mbind at 1. unfold M_bind. rewrite Hclose, Hcands.
  destruct (search_skips u h pre ((device, (name, p)) :: post) s0 Hpre)
    as [s1 ->].
  destruct (try_candidate_accepted u h (device, (name, p)) s1)
    as (s2 & port & Htry & Hrest); [by apply accepted_usable|].
  cbn [search]. unfold mbind, M_bind. rewrite Htry. by exists s2, port.
Qed.

Lemma connect_first_accepted_witness :
  ∃ self' s',
    connect plain_tables true two_port_host (connected_on good_port)
    = (Ok true, self') ∧
    connected self' = true ∧
    port_name self' = Some "COM2"%string ∧
    serial self' = Some s' ∧
    Serial.port s' = "COM2"%string ∧
    Serial.is_open s' = true ∧
    Serial.baudrate s' = 115200 ∧
    Serial.timeout s' = 1 ∧
    Serial.write_timeout s' = 1 ∧
    Serial.written s' = [encode ("box.version()" ++ CR ++ LF)].
Proof.
  apply (connect_first_accepted plain_tables two_port_host
           (connected_on good_port)
           ["COM1"%string] [] "COM2"
           [("makcu"%string,
             {| HANDSHAKE_COMMAND := encode ("km.version()" ++ CR ++ LF);
                HANDSHAKE_RESPONSE_KEYWORDS := ["km.makcu"; "km"]%string;
                BAUDRATE_HIGH := 4000000;
                INIT_SEQUENCE := [xde; xad; x05; x00; xa5; x00; x09; x3d; x00];
                INIT_COMMAND := encode ("km.buttons(1)" ++ CR ++ LF) |})]
           [] "otherbox"
           {| HANDSHAKE_COMMAND := encode ("box.version()" ++ CR ++ LF);
              HANDSHAKE_RESPONSE_KEYWORDS := ["otherbox"%string];
              BAUDRATE_HIGH := 115200;
              INIT_SEQUENCE := [];
              INIT_COMMAND := [] |}).
  - reflexivity.
  - reflexivity.
  - intros d n q Hd _ (Hopen & _).
    apply list_elem_of_singleton in Hd as ->. vm_compute in Hopen.
    discriminate.
  - intros n q Hq Huse. apply list_elem_of_singleton in Hq as [= -> ->].
    apply accepted_usable in Huse. vm_compute in Huse. discriminate.
  - apply accepted_usable. vm_compute. reflexivity.
Defined.

(** A candidate that is not accepted leaves no port open, whether it
    failed to open, was refused a write, gave no matching answer or
    failed while the connection was being finished. *)
Lemma try_candidate_releases (u : Unicode.db) (h : host)
    (c : string * (string * profile)) (self : t) :
  accepted u h c = false → port_released (try_candidate u h c self).2.
Proof.
  destruct c as [device [name p]].
  unfold try_candidate, attempt, _finalize_connection, _read_response,
    accepted, answers, finalizes, response, port_released, Serial.open.
  simpl. set (l := line_of h device name).
  destruct (Serial.open_ok l) eqn:Hopen; run_M'.
  2:{ intros _. destruct (serial self) as [s|] eqn:Hs;
        [destruct (Serial.is_open s) eqn:Ho|]; simpl; rewrite ?Hs; simpl; done. }
  destruct (Serial.line_write_ok l 0) eqn:Hw0; simpl; [|done].
  destruct (drain (Serial.line_incoming l)) as [lines unread]; simpl.
  destruct (any_keyword _ _); simpl; [|done].
  destruct (nonempty (INIT_SEQUENCE p)); simpl;
    [destruct (Serial.line_write_ok l 1); simpl; [|done]|];
    destruct (BAUDRATE_HIGH p =? BAUDRATE_DEFAULT); simpl;
    destruct (nonempty (INIT_COMMAND p)); simpl;
    repeat match goal with
           | |- context [Serial.line_write_ok l ?n] =>
               destruct (Serial.line_write_ok l n); simpl
           end; done.
Qed.

Lemma search_releases (u : Unicode.db) (h : host)
    (cs : list (string * (string * profile))) (self : t) :
  port_released self →
  existsb (accepted u h) cs = false →
  port_released (search u h cs self).2.
Proof.
  revert self. induction cs as [|a cs IH]; intros self Hrel; simpl; [done|].
  intros Hnone. apply orb_false_iff in Hnone as [Ha Hcs].
  destruct (try_candidate_spec u h a self) as (s1 & Htry & _).
  pose proof (try_candidate_releases u h a self Ha) as Hrel1.
  unfold mbind, M_bind. rewrite Htry in *. rewrite Ha. simpl in *.
  by apply IH.
Qed.

(** When no enumerated port is usable with any profile of the catalogue,
    [connect] returns [False] and leaves no serial port open behind it:
    this also holds when a device answered the handshake and then failed
    while the connection was being finished, and when the controller was
    connected before. *)
Theorem connect_failure_releases (u : Unicode.db) (h : host) (self : t) :
  (∀ device name p,
     device ∈ comports h → (name, p) ∈ DEVICE_PROFILES →
     ¬ usable u h device name p) →
  ∃ self',
    connect u true h self = (Ok false, self') ∧
    connected self' = false ∧
    port_released self'.
Proof.
  intros Hnone. apply none_accepted in Hnone as Hex.
  destruct (connect_spec u h self) as (s1 & Hconnect & Hconn).
  rewrite Hex in Hconnect, Hconn. exists s1. split; [done|]. split; [done|].
  replace s1 with (connect u true h self).2 by by rewrite Hconnect.
  unfold connect. simpl.
  destruct (close_spec self) as (s0 & Hclose & _ & _ & Hrel & _).
  unfold mbind at 1. unfold M_bind. rewrite Hclose.
  by apply search_releases.
Qed.

Lemma connect_failure_releases_witness :
  ∃ self',
    connect plain_tables true fickle_host (connected_on good_port)
    = (Ok false, self') ∧
    connected self' = false ∧
    port_released self'.
Proof.
  apply (connect_failure_releases plain_tables fickle_host
           (connected_on good_port)).
  intros device name p _ Hp Huse. apply accepted_usable in Huse.
  apply list_elem_of_In in Hp. simpl in Hp.
  destruct Hp as [[= <- <-] | [[= <- <-] | []]]; vm_compute in Huse;
    discriminate.
Defined.

End MakcuMore.

(** ** Text on the serial line *)

Section SerialText.

Import MakcuController.

Lemma drain_blank (pending : list (option bytes)) :
  Forall (λ r, ∀ raw, r = Some raw → strip (decode raw) = []) pending →
  (drain pending).1 = [].
Proof.
  induction pending as [|[raw|] rest IH]; intros Hall; simpl; [done| |done].
  apply Forall_cons in Hall as [Hraw Hrest].
  rewrite (Hraw raw eq_refl). specialize (IH Hrest).
  destruct (drain rest) as [lines unread]. simpl in *. by rewrite IH.
Qed.

(** A port that sends nothing, or only lines that are blank once they
    are decoded and stripped, is never taken for a device of the
    catalogue: the candidate is turned down, for either profile, and its
    port is closed again. *)
Theorem quiet_port_rejected (u : Unicode.db) (h : host)
    (device name : string) (p : profile) (self : t) :
  (name, p) ∈ DEVICE_PROFILES →
  Forall (λ r, ∀ raw, r = Some raw → strip (decode raw) = [])
    (Serial.line_incoming (line_of h device name)) →
  ∃ self',
    try_candidate u h (device, (name, p)) self = (Ok false, self') ∧
    connected self' = connected self ∧
    port_released self'.
Proof.
  intros Hp Hquiet.
  assert (accepted u h (device, (name, p)) = false) as Hacc.
  { unfold accepted, answers, response. simpl.
    rewrite (drain_blank _ Hquiet).
    apply list_elem_of_In in Hp. simpl in Hp.
    destruct Hp as [[= <- <-] | [[= <- <-] | []]]; simpl;
      by rewrite andb_false_r. }
  destruct (try_candidate_spec u h (device, (name, p)) self)
    as (s1 & Htry & Hconn).
  pose proof (try_candidate_releases u h (device, (name, p)) self Hacc) as Hrel.
  rewrite Htry in Hrel. rewrite Hacc in Htry, Hconn.
  by exists s1.
Qed.

Lemma quiet_port_rejected_witness :
  ∃ self',
    try_candidate plain_tables
      {| comports := ["COM1"%string];
         line_of := λ _ _,
           {| Serial.open_ok := true;
              Serial.line_write_ok := λ _, true;
              Serial.line_incoming :=
                [Some (encode (CR ++ LF)); Some [xa0; x85; x20]; None] |} |}
      ("COM1"%string,
       ("otherbox"%string,
        {| HANDSHAKE_COMMAND := encode ("box.version()" ++ CR ++ LF);
           HANDSHAKE_RESPONSE_KEYWORDS := ["otherbox"%string];
           BAUDRATE_HIGH := 115200;
           INIT_SEQUENCE := [];
           INIT_COMMAND := [] |})) init
    = (Ok false, self') ∧
    connected self' = connected init ∧
    port_released self'.
Proof.
  apply (quiet_port_rejected plain_tables _ "COM1" "otherbox" _ init).
  - right. left.
  - repeat constructor; intros raw Hraw; inversion Hraw; reflexivity.
Defined.

(** The handshake answer is matched without regard to case: when the
    lines received contain a keyword of the profile in any mix of
    capitals and small letters, the profile's keywords match. *)
Theorem keyword_match_ignores_case (u : Unicode.db) (l : Serial.line)
    (keywords : list string) (keyword : string) (variant : text) :
  In keyword keywords →
  lower u variant = text_of keyword →
  contains variant
    (join (text_of " ") (drain (Serial.line_incoming l)).1) = true →
  any_keyword keywords (response u l) = true.
Proof.
  intros Hin Hlow Hc. unfold any_keyword, response.
  apply existsb_exists. exists keyword. split; [done|].
  destruct (contains_split _ _ Hc) as (pre & post & ->).
  apply contains_occurs. by apply lower_occurs.
Qed.

Lemma keyword_match_ignores_case_witness :
  any_keyword ["km.makcu"; "km"]%string
    (response plain_tables (line_of makcu_host "COM7" "makcu")) = true.
Proof.
  apply (keyword_match_ignores_case plain_tables _ _ "km.makcu"
           (text_of "KM.MAKCU")).
  - left. reflexivity.
  - reflexivity.
  - vm_compute. reflexivity.
Defined.

Lemma encode_inj (a b : string) : encode a = encode b → a = b.
Proof.
  unfold encode. intros H.
  by rewrite <- (string_of_list_byte_of_string a),
    <- (string_of_list_byte_of_string b), H.
Qed.

Lemma uint_chars (d : Decimal.uint) :
  all_chars numeral_char (NilEmpty.string_of_uint d).
Proof.
  induction d; simpl; try done; (split; [|done]); unfold numeral_char; tauto.
Qed.

Lemma dec_chars (z : Z) : all_chars numeral_char (dec z).
Proof.
  unfold dec, NilZero.string_of_int, NilZero.string_of_uint.
  destruct (Z.to_int z) as [d|d].
  - destruct d; try apply uint_chars. simpl. unfold numeral_char. tauto.
  - simpl. split; [unfold numeral_char; tauto|].
    destruct d; try apply uint_chars. simpl. unfold numeral_char. tauto.
Qed.

(** [parse_int] reads back what ["%d"] prints. *)
Lemma parse_dec (z : Z) : parse_int (dec z) = Some z.
Proof.
  unfold parse_int, dec. rewrite NilZero.isi.
  - simpl. by rewrite DecimalZ.of_to.
  - destruct z; simpl; try done. intros [= H].
    by apply DecimalPos.Unsigned.to_uint_nonnil in H.
  - destruct z; simpl; try done. intros [= H].
    by apply DecimalPos.Unsigned.to_uint_nonnil in H.
Qed.

Lemma split_at_separator (sep : ascii) (a a' r r' : string) :
  all_chars (λ c, c ≠ sep) a → all_chars (λ c, c ≠ sep) a' →
  (a ++ String sep r)%string = (a' ++ String sep r')%string →
  a = a' ∧ r = r'.
Proof.
  revert a'. induction a as [|c a IH]; intros [|c' a']; simpl.
  - by intros _ _ [= ->].
  - intros _ [Hc' _] [= <- _]. done.
  - intros [Hc _] _ [= -> _]. done.
  - intros [_ Ha] [_ Ha'] [= <- Heq].
    destruct (IH a' Ha Ha' Heq) as [-> ->]. done.
Qed.

Lemma numeral_without (sep : ascii) (s : string) :
  ¬ numeral_char sep → all_chars numeral_char s → all_chars (λ c, c ≠ sep) s.
Proof.
  intros Hsep. induction s as [|c s IH]; simpl; [done|].
  intros [Hc Hs]. split; [by intros -> | by apply IH].
Qed.

(** A move command determines its move: two calls of [move] send the
    same bytes only for the same [(x, y)], and both numbers can be read
    back from the numerals in the command. *)
Theorem move_command_injective (x y x' y' : Z) :
  MOVE_CMD x y = MOVE_CMD x' y' → x = x' ∧ y = y'.
Proof.
  unfold MOVE_CMD. intros H. apply encode_inj in H.
  simpl in H. injection H as H.
  assert (¬ numeral_char ","%char) as Hcomma.
  { unfold numeral_char. intros Hc. repeat destruct Hc as [Hc|Hc]; done. }
  assert (¬ numeral_char ")"%char) as Hparen.
  { unfold numeral_char. intros Hc. repeat destruct Hc as [Hc|Hc]; done. }
  apply split_at_separator in H as [Hx H];
    try (apply numeral_without; [done | apply dec_chars]).
  apply split_at_separator in H as [Hy _];
    try (apply numeral_without; [done | apply dec_chars]).
  pose proof (parse_dec x) as Px. pose proof (parse_dec x') as Px'.
  pose proof (parse_dec y) as Py. pose proof (parse_dec y') as Py'.
  rewrite Hx in Px. rewrite Hy in Py. split; congruence.
Qed.

Lemma move_command_injective_witness : (-3 : Z) = -3 ∧ (12 : Z) = 12.
Proof. apply (move_command_injective (-3) 12 (-3) 12). reflexivity. Defined.

End SerialText.

(** ** Settings across a restart *)

Section Restart.

Import Config ConfigFile.

Lemma covers_defaults_union (s : gmap string value) :
  (∀ k, known k → is_Some (s !! k)) → s ∪ DEFAULTS = s.
Proof.
  intros Hcov. apply map_eq. intros k. rewrite lookup_union.
  destruct (s !! k) as [v|] eqn:Hs; [by destruct (DEFAULTS !! k)|].
  destruct (DEFAULTS !! k) as [w|] eqn:Hd; [|done].
  destruct (Hcov k) as [? ?]; [by exists w | congruence].
Qed.

Lemma load_covers_defaults (f : file) (s : gmap string value) :
  load f = Ok s → ∀ k, known k → is_Some (s !! k).
Proof.
  unfold load, known.
  destruct f as [[|] [[d|]|e]]; simpl; try (intros [= <-]; done); try done.
  - intros [= <-] k [w Hk]. rewrite lookup_union.
    destruct (d !! k); rewrite Hk; by eexists.
  - destruct e; try done; by intros [= <-].
Qed.

Lemma updated_covers (updates : list (gmap string value)) (s : AppState.t)
    (P : string → Prop) :
  (∀ k, P k → is_Some (AppState.settings s !! k)) →
  ∀ k, P k → is_Some (AppState.settings (updated updates s) !! k).
Proof.
  revert s. induction updates as [|u updates IH]; intros s Hcov; [done|].
  simpl. apply IH. intros k Hk. simpl. rewrite lookup_union.
  destruct (Hcov k Hk) as [v ->]. destruct (u !! k); by eexists.
Qed.

(** Settings that were loaded at start-up and then changed by any number
    of updates come back exactly as they were saved, whatever the first
    file was: every default key is still present in them, so the merge
    over the defaults adds nothing at the next load. *)
Theorem settings_survive_restart (f0 f : file) (s0 : gmap string value)
    (updates : list (gmap string value)) :
  load f0 = Ok s0 →
  load (save Writable
          (AppState.get_full_config (updated updates (AppState.init s0))) f)
  = Ok (AppState.settings (updated updates (AppState.init s0))).
Proof.
  intros Hload. simpl. rewrite load_stored. f_equal.
  apply covers_defaults_union.
  apply (updated_covers updates (AppState.init s0) known).
  simpl. by apply (load_covers_defaults f0).
Qed.

Lemma settings_survive_restart_witness :
  load (save Writable
          (AppState.get_full_config
             (updated [CloudRecoil.settings_of CloudRecoil.scenario]
                (AppState.init DEFAULTS))) corrupt)
  = Ok (AppState.settings
          (updated [CloudRecoil.settings_of CloudRecoil.scenario]
             (AppState.init DEFAULTS))).
Proof.
  apply (settings_survive_restart corrupt corrupt DEFAULTS
           [CloudRecoil.settings_of CloudRecoil.scenario]).
  reflexivity.
Defined.

(** After a save that could not open the file the previous file is
    loaded again; after an interrupted dump the defaults are. *)
Lemma failed_save_then_load (settings : gmap string value) (f : file) :
  load (save OpenRefused settings f) = load f ∧
  load (save DumpInterrupted settings f) = Ok DEFAULTS.
Proof. done. Qed.

(** After [closeEvent] the loop makes no further tick, the controller,
    when there is one, is disconnected with its port closed, and on a
    writable disk the saved file loads as the current settings over the
    defaults. *)
Theorem closeEvent_shuts_down (f : file) (self : CloudRecoil.t) :
  ∃ self' f',
    Shutdown.closeEvent Writable f self = (self', f') ∧
    (∀ es, CloudRecoil.recoil_loop es self' = Ok self') ∧
    (∀ mc, CloudRecoil.mouse_controller self' = Some mc →
           MakcuController.connected mc = false ∧ port_released mc) ∧
    load f'
    = Ok (AppState.settings (CloudRecoil.app_state self) ∪ DEFAULTS).
Proof.
  eexists _, _. split; [reflexivity|]. simpl.
  split; [by intros es; apply recoil_loop_stopped|].
  split; [|done].
  intros mc. destruct (CloudRecoil.mouse_controller self) as [mc0|]; [|done].
  intros [= <-].
  destruct (close_spec mc0) as (mc1 & -> & Hconn & _ & Hrel & _). done.
Qed.

End Restart.

(** ** The image loader *)

Section ImageLoader.

Import AsyncImageLoader.

Lemma get_result (u : string) (w : widget) (self : t) :
  (get u w self).1 = cache self !! u.
Proof. unfold get. by destruct (cache self !! u). Qed.

Lemma get_cache (u : string) (w : widget) (self : t) :
  cache (get u w self).2 = cache self.
Proof.
  unfold get. destruct (cache self !! u); [done|].
  destruct (subscribers self !! u); simpl; by case_bool_decide.
Qed.

(** The effect of one [get] on a URL that is not cached. *)
Lemma get_pending (u : string) (w : widget) (self : t) :
  cache self !! u = None →
  let waiting := default [] (subscribers self !! u) in
  repainted (get u w self).2 = repainted self ∧
  requested (get u w self).2
  = requested self
    ++ match subscribers self !! u with Some _ => [] | None => [u] end ∧
  subscribers (get u w self).2 !! u
  = Some (if bool_decide (w ∈ waiting) then waiting else waiting ++ [w]) ∧
  ∀ u', u' ≠ u →
        subscribers (get u w self).2 !! u' = subscribers self !! u'.
Proof.
  intros Hc. unfold get. rewrite Hc.
  destruct (subscribers self !! u) as [ws|] eqn:Hs; simpl.
  - rewrite Hs. simpl. rewrite app_nil_r.
    case_bool_decide; simpl; repeat split; try done.
    + by rewrite lookup_insert_eq.
    + intros u' Hne. by rewrite lookup_insert_ne.
  - rewrite lookup_insert_eq. simpl.
    repeat split; try done.
    + by rewrite lookup_insert_eq.
    + intros u' Hne. by rewrite !lookup_insert_ne.
Qed.

Lemma step_accounted (o : op) (self : t) :
  accounted self → NoDup (requested self) →
  accounted (step self o) ∧ NoDup (requested (step self o)).
Proof.
  intros Hacc Hnd. destruct o as [u w | r]; simpl.
  - destruct (cache self !! u) as [p|] eqn:Hc.
    { unfold get. by rewrite Hc. }
    destruct (get_pending u w self Hc) as (_ & Hreq & Hsub & Hother).
    split.
    + intros u' Hu'. rewrite get_cache. rewrite Hreq in Hu'.
      destruct (decide (u' = u)) as [->|Hne]; [right; by rewrite Hsub|].
      rewrite Hother by done. apply Hacc.
      apply elem_of_app in Hu' as [Hu'|Hu']; [done|].
      destruct (subscribers self !! u);
        [by apply not_elem_of_nil in Hu'|].
      by apply list_elem_of_singleton in Hu'.
    + rewrite Hreq. destruct (subscribers self !! u) eqn:Hs.
      * by rewrite app_nil_r.
      * apply NoDup_app. split; [done|]. split; [|apply NoDup_singleton].
        intros u' Hu' Hin. apply list_elem_of_singleton in Hin as ->.
        destruct (Hacc u Hu') as [[? ?]|[? ?]]; congruence.
  - unfold _on_finished.
    destruct (subscribers self !! url r) as [ws|] eqn:Hs; simpl;
      (split; [|done]); intros u' Hu'; simpl in *;
      (destruct (decide (u' = url r)) as [->|Hne];
       [left; by rewrite lookup_insert_eq|]);
      rewrite lookup_insert_ne by done;
      rewrite ?lookup_delete_ne by done; by apply Hacc.
Qed.

(** No URL is ever requested from the network twice, whatever the
    widgets ask for and whatever replies arrive in between, failed
    downloads included. *)
Theorem no_url_requested_twice (ops : list op) :
  NoDup (requested (run ops init)).
Proof.
  assert (∀ ops self, accounted self → NoDup (requested self) →
            accounted (run ops self) ∧ NoDup (requested (run ops self)))
    as Hrun.
  { clear ops. induction ops as [|o ops IH]; intros self Hacc Hnd; [done|].
    simpl. destruct (step_accounted o self Hacc Hnd). by apply IH. }
  apply Hrun; [|constructor].
  intros u Hu. by apply not_elem_of_nil in Hu.
Qed.

Lemma step_keeps_cached (o : op) (u : string) (self : t) :
  is_Some (cache self !! u) →
  is_Some (cache (step self o) !! u) ∧
  requested (step self o)
  = requested self ++ List.filter (λ u', negb (String.eqb u' u))
                        (drop (length (requested self))
                           (requested (step self o))).
Proof.
  intros [p Hp]. destruct o as [u0 w | r]; simpl.
  - rewrite get_cache. split; [by eexists|].
    destruct (cache self !! u0) as [p0|] eqn:Hc.
    { unfold get. rewrite Hc. simpl. by rewrite drop_all, app_nil_r. }
    destruct (get_pending u0 w self Hc) as (_ & -> & _).
    rewrite drop_app_length.
    destruct (subscribers self !! u0); simpl; [done|].
    destruct (String.eqb_spec u0 u) as [->|]; [congruence | done].
  - unfold _on_finished.
    assert (is_Some (<[url r := if error r then Null else loaded r]>
                       (cache self) !! u)) as Hsome.
    { destruct (decide (url r = u)) as [->|Hne].
      - rewrite lookup_insert_eq. by eexists.
      - rewrite lookup_insert_ne by done. by eexists. }
    destruct (subscribers self !! url r); simpl;
      by rewrite drop_all, app_nil_r.
Qed.

(** Once the reply for a URL has arrived, be it an error, the URL stays
    cached: every later [get] for it returns a pixmap, the null pixmap
    after an error, and whatever happens next it is not requested from
    the network again. *)
Theorem finished_url_is_settled (r : reply) (self : t) (ops : list op)
    (w : widget) :
  (get (url r) w (_on_finished r self)).1
  = Some (if error r then Null else loaded r) ∧
  is_Some (get (url r) w (run ops (_on_finished r self))).1 ∧
  ∃ later,
    requested (run ops (_on_finished r self)) = requested self ++ later ∧
    url r ∉ later.
Proof.
  assert (cache (_on_finished r self) !! url r
          = Some (if error r then Null else loaded r)) as Hc.
  { unfold _on_finished. destruct (subscribers self !! url r); simpl;
      by rewrite lookup_insert_eq. }
  assert (requested (_on_finished r self) = requested self) as Hreq.
  { unfold _on_finished. by destruct (subscribers self !! url r). }
  split; [by rewrite get_result|].
  assert (∀ ops s, is_Some (cache s !! url r) →
            is_Some (cache (run ops s) !! url r) ∧
            ∃ later, requested (run ops s) = requested s ++ later ∧
                     url r ∉ later) as Hrun.
  { clear. induction ops as [|o ops IH]; intros s Hs.
    - split; [done|]. exists [].
      split; [by rewrite app_nil_r | apply not_elem_of_nil].
    - simpl. destruct (step_keeps_cached o (url r) s Hs) as [Hs1 Hreq1].
      destruct (IH _ Hs1) as (Hs2 & later & Hreq2 & Hnot).
      split; [done|]. rewrite Hreq2, Hreq1, <- app_assoc.
      eexists. split; [done|].
      apply not_elem_of_app. split; [|done].
      rewrite list_elem_of_In, List.filter_In.
      intros [_ Hne]. by rewrite String.eqb_refl in Hne. }
  destruct (Hrun ops (_on_finished r self)) as (Hs & later & Hlater & Hnot);
    [by rewrite Hc|].
  split; [by rewrite get_result|].
  exists later. by rewrite Hlater, Hreq.
Qed.

Lemma gets_collect (u : string) (ws : list widget) (self : t) :
  cache self !! u = None →
  NoDup (default [] (subscribers self !! u)) →
  cache (run (Get u <$> ws) self) = cache self ∧
  repainted (run (Get u <$> ws) self) = repainted self ∧
  NoDup (default [] (subscribers (run (Get u <$> ws) self) !! u)) ∧
  ∀ w, w ∈ default [] (subscribers (run (Get u <$> ws) self) !! u)
       ↔ w ∈ default [] (subscribers self !! u) ∨ w ∈ ws.
Proof.
  revert self. induction ws as [|w0 ws IH]; intros self Hc Hnd.
  - simpl. repeat split; try done; [by left|].
    intros [Hw|Hw]; [done | by apply not_elem_of_nil in Hw].
  - change (run (Get u <$> w0 :: ws) self)
      with (run (Get u <$> ws) (get u w0 self).2).
    destruct (get_pending u w0 self Hc) as (Hrep & _ & Hsub & _).
    destruct (IH (get u w0 self).2) as (Hc' & Hrep' & Hnd' & Hmem).
    { by rewrite get_cache. }
    { rewrite Hsub. simpl. case_bool_decide; [done|].
      apply NoDup_app. split; [done|]. split; [|apply NoDup_singleton].
      intros x Hx Hin. by apply list_elem_of_singleton in Hin as ->. }
    rewrite Hc', Hrep', get_cache, Hrep.
    repeat split; try done.
    + intros Hw. apply Hmem in Hw. rewrite Hsub in Hw. simpl in Hw.
      destruct Hw as [Hw|Hw]; [|right; by apply list_elem_of_further].
      case_bool_decide; [by left|].
      apply elem_of_app in Hw as [Hw|Hw]; [by left|].
      apply list_elem_of_singleton in Hw as ->. right. apply list_elem_of_here.
    + intros Hw. apply Hmem. rewrite Hsub. simpl.
      destruct Hw as [Hw|Hw].
      * left. case_bool_decide; [done|]. apply elem_of_app. by left.
      * apply elem_of_cons in Hw as [->|Hw]; [|by right].
        left. case_bool_decide; [done|].
        apply elem_of_app. right. by apply list_elem_of_singleton.
Qed.

(** The widgets that asked for a URL while it was being fetched are each
    repainted once when the reply arrives, however often they asked, and
    are then forgotten. *)
Theorem subscribers_repainted_once (r : reply) (ws : list widget) (self : t) :
  cache self !! url r = None →
  subscribers self !! url r = None →
  ∃ woken,
    repainted (_on_finished r (run (Get (url r) <$> ws) self))
    = repainted self ++ woken ∧
    NoDup woken ∧
    (∀ w, w ∈ woken ↔ w ∈ ws) ∧
    subscribers (_on_finished r (run (Get (url r) <$> ws) self)) !! url r
    = None.
Proof.
  intros Hc Hs.
  destruct (gets_collect (url r) ws self Hc) as (_ & Hrep & Hnd & Hmem).
  { rewrite Hs. constructor. }
  rewrite Hs in Hmem. simpl in Hmem.
  assert (∀ w, w ∈ default []
                 (subscribers (run (Get (url r) <$> ws) self) !! url r)
               ↔ w ∈ ws) as Hmem'.
  { intros w. rewrite Hmem. split; [|by right].
    intros [Hw|Hw]; [by apply not_elem_of_nil in Hw | done]. }
  unfold _on_finished.
  destruct (subscribers (run (Get (url r) <$> ws) self) !! url r)
    as [waiting|] eqn:Hw; simpl in *.
  - exists waiting. by rewrite Hrep, lookup_delete_eq.
  - exists []. rewrite Hrep, app_nil_r, Hw.
    split; [done|]. split; [constructor|]. done.
Qed.

Lemma subscribers_repainted_once_witness :
  ∃ woken,
    repainted
      (_on_finished {| url := "u"; error := true; loaded := Null |}
         (run (Get "u" <$> [1; 2; 1; 1; 2]%nat) init))
    = repainted init ++ woken ∧
    NoDup woken ∧
    (∀ w, w ∈ woken ↔ w ∈ [1; 2; 1; 1; 2]%nat) ∧
    subscribers
      (_on_finished {| url := "u"; error := true; loaded := Null |}
         (run (Get "u" <$> [1; 2; 1; 1; 2]%nat) init)) !! "u"%string
    = None.
Proof.
  apply (subscribers_repainted_once
           {| url := "u"; error := true; loaded := Null |}
           [1; 2; 1; 1; 2]%nat init); reflexivity.
Defined.

End ImageLoader.
